(** * sshfs_mount: preparing a remote mount point over an SSH session

    A shallow embedding of [src/sshfs_mount/sshfs_mount.cpp].  The helpers of
    the anonymous namespace ([run_cmd], [run_string_cmd],
    [check_sshfs_exists], [expand_home_directory], [get_path_split],
    [make_target_dir], [set_owner_for], [make_sftp_server]) are written in a
    state-and-exception monad over the SSH session; [SshfsMount] and its
    worker thread are a small state machine. *)

From Stdlib Require Import String Ascii List NArith ZArith Bool Lia DecimalString.
From Stdlib Require DecimalPos.
Import ListNotations.

Local Open Scope string_scope.

(** ** std::string *)

Module Std.

(** [std::string::size_type] is a 64-bit unsigned integer. *)
Definition size_type := N.
Definition modulus : N := (2 ^ 64)%N.
Definition npos : size_type := (modulus - 1)%N.

(** Unsigned subtraction, wrapping around. *)
Definition size_sub (a b : size_type) : size_type :=
  ((a + modulus - b mod modulus) mod modulus)%N.

Definition size (s : string) : size_type := N.of_nat (String.length s).

(** [s[i]]; at [i == size()] the terminating null character. *)
Fixpoint char_at (s : string) (i : nat) : ascii :=
  match s, i with
  | EmptyString, _ => zero
  | String c _, O => c
  | String _ r, S j => char_at r j
  end.

Fixpoint skip (n : nat) (s : string) : string :=
  match n, s with
  | O, _ => s
  | S _, EmptyString => EmptyString
  | S m, String _ r => skip m r
  end.

(** Index of the first [c] in [s], whose first character has index [i]. *)
Fixpoint find_from (c : ascii) (s : string) (i : size_type) : size_type :=
  match s with
  | EmptyString => npos
  | String a r => if Ascii.eqb a c then i else find_from c r (N.succ i)
  end.

(** [s.find(c, pos)] *)
Definition find (s : string) (c : ascii) (pos : size_type) : size_type :=
  if (size s <? pos)%N then npos
  else find_from c (skip (N.to_nat pos) s) pos.

(** [s.find_first_of(c)] *)
Definition find_first_of (s : string) (c : ascii) : size_type :=
  find s c 0%N.

(** [s.substr(pos, count)]: [None] stands for [std::out_of_range], thrown
    when [pos > size()]; the count is clipped to the end of the string. *)
Definition substr (s : string) (pos count : size_type) : option string :=
  if (size s <? pos)%N then None
  else Some (String.substring (N.to_nat pos)
               (N.to_nat (N.min count (size s - pos))) s).

(** A string without its last character. *)
Fixpoint without_last (s : string) : string :=
  match s with
  | EmptyString => EmptyString
  | String c EmptyString => EmptyString
  | String c r => String c (without_last r)
  end.

(** [s.pop_back()]: the last character is removed.  On an empty string
    the behaviour of the call is undefined, which [None] stands for. *)
Definition pop_back (s : string) : option string :=
  match s with
  | EmptyString => None
  | String _ _ => Some (without_last s)
  end.

(** [std::isspace] in the C locale. *)
Definition isspace (c : ascii) : bool :=
  let n := nat_of_ascii c in
  Nat.eqb n 32 || (Nat.leb 9 n && Nat.leb n 13).

(** The range of [int]. *)
Definition INT_MAX : Z := 2147483647%Z.
Definition INT_MIN : Z := (-2147483648)%Z.

(** [std::stoi(str)]: leading whitespace, an optional sign, then decimal
    digits up to the first other character. *)
Definition digit_of (c : ascii) : option Z :=
  let n := nat_of_ascii c in
  if (Nat.leb 48 n && Nat.leb n 57)%bool then Some (Z.of_nat n - 48)%Z else None.

Fixpoint read_digits (s : string) (acc : option Z) : option Z :=
  match s with
  | EmptyString => acc
  | String c r =>
      match digit_of c with
      | Some d =>
          read_digits r
            (Some (10 * match acc with Some v => v | None => 0 end + d)%Z)
      | None => acc
      end
  end.

Fixpoint skip_space (s : string) : string :=
  match s with
  | String c r => if isspace c then skip_space r else s
  | EmptyString => s
  end.

Inductive stoi_result : Type :=
| stoi_value (v : Z)
| stoi_invalid_argument
| stoi_out_of_range.

Definition stoi (str : string) : stoi_result :=
  let s := skip_space str in
  let '(negative, digits) :=
    match s with
    | String c r =>
        if Ascii.eqb c "-"%char then (true, r)
        else if Ascii.eqb c "+"%char then (false, r)
        else (false, s)
    | EmptyString => (false, s)
    end in
  match read_digits digits None with
  | None => stoi_invalid_argument
  | Some v =>
      let v := if negative then (- v)%Z else v in
      if ((INT_MIN <=? v) && (v <=? INT_MAX))%Z then stoi_value v
      else stoi_out_of_range
  end.

End Std.

(** Characters that a string literal cannot hold directly. *)
Definition dq : string := String (ascii_of_nat 34) EmptyString.
Definition nl : string := String (ascii_of_nat 10) EmptyString.

(** ** multipass::utils *)

Module utils.

(** Modelled from the spec: [mp::utils::trim_end] lives in
    [src/utils/utils.cpp], not in [sshfs_mount.cpp]; the specification has
    it "strip trailing whitespace from the raw capture".
    The string is cut after its last non-whitespace character. *)
Fixpoint trim_end (s : string) : string :=
  match s with
  | EmptyString => EmptyString
  | String c r =>
      match trim_end r with
      | EmptyString =>
          if Std.isspace c then EmptyString else String c EmptyString
      | r' => String c r'
      end
  end.

End utils.

(** ** QDir *)

(** Qt's [QDir] is a library outside the repository.  What
    [get_path_split] uses of it is written out here for a POSIX host, after
    Qt 5's [qdir.cpp]: paths are separated by [/], a path is absolute when
    it starts with [/], [cleanPath] drops empty and [.] segments and
    resolves [..] against the segment before it, and [relativeFilePath]
    spells the directory itself as [.]. *)
Module QDir.

Definition slash : ascii := "/"%char.

Definition starts_with_slash (p : string) : bool :=
  match p with
  | String c _ => Ascii.eqb c slash
  | EmptyString => false
  end.

Fixpoint ends_with_slash (p : string) : bool :=
  match p with
  | EmptyString => false
  | String c EmptyString => Ascii.eqb c slash
  | String _ r => ends_with_slash r
  end.

(** [QString::split('/')], empty parts kept. *)
Fixpoint split (s : string) : list string :=
  match s with
  | EmptyString => [EmptyString]
  | String c r =>
      if Ascii.eqb c slash then EmptyString :: split r
      else match split r with
           | h :: t => String c h :: t
           | [] => [String c EmptyString]
           end
  end.

Definition nonempty (s : string) : bool :=
  match s with EmptyString => false | String _ _ => true end.

(** [QString::split('/', QString::SkipEmptyParts)] *)
Definition split_skip_empty (s : string) : list string :=
  filter nonempty (split s).

(** [QStringList::join('/')] *)
Fixpoint join (l : list string) : string :=
  match l with
  | [] => EmptyString
  | [x] => x
  | x :: r => x ++ "/" ++ join r
  end.

(** One segment pushed on the segments cleaned so far (last one first). *)
Definition push_segment (stack : list string) (seg : string) : list string :=
  if String.eqb seg "." then stack
  else if String.eqb seg ".." then
    match stack with
    | top :: rest => if String.eqb top ".." then seg :: stack else rest
    | [] => seg :: stack
    end
  else seg :: stack.

Definition clean_elts (p : string) : list string :=
  rev (fold_left push_segment (split_skip_empty p) []).

(** [QDir::isRelativePath(path)] *)
Definition isRelativePath (p : string) : bool := negb (starts_with_slash p).

(** [QDir::cleanPath(path)] *)
Definition cleanPath (p : string) : string :=
  match p with
  | EmptyString => EmptyString
  | _ =>
      let elts := clean_elts p in
      if starts_with_slash p then "/" ++ join elts
      else match elts with
           | [] => "."
           | _ => join elts
           end
  end.

(** A [QDir] object holds the path it was made from. *)
Record t : Type := mk { dirEntry : string }.

(** [QDir(path)]: an empty path stands for [.], and one trailing separator
    is dropped ([QString::truncate] to one character less) unless the path
    is the root. *)
Definition new (p : string) : t :=
  let p := match p with EmptyString => "." | _ => p end in
  mk (if ends_with_slash p && (1 <? String.length p)%nat
      then Std.without_last p else p).

(** [dir.path()] *)
Definition path (d : t) : string := dirEntry d.

(** [dir.isRelative()] *)
Definition isRelative (d : t) : bool := isRelativePath (dirEntry d).

(** [dir.absolutePath()]; [current_path] is [QDir::currentPath()], the
    working directory of the local process. *)
Definition absolutePath (current_path : string) (d : t) : string :=
  cleanPath (if isRelative d then current_path ++ "/" ++ dirEntry d
             else dirEntry d).

Fixpoint common_prefix (a b : list string) : nat :=
  match a, b with
  | x :: a', y :: b' => if String.eqb x y then S (common_prefix a' b') else O
  | _, _ => O
  end.

Fixpoint dotdots (n : nat) : string :=
  match n with
  | O => EmptyString
  | S m => "../" ++ dotdots m
  end.

(** An empty result is spelt [.]. *)
Definition or_dot (result : string) : string :=
  match result with
  | EmptyString => "."
  | _ => result
  end.

(** [dir.relativeFilePath(fileName)] *)
Definition relativeFilePath (current_path : string) (d : t)
    (fileName : string) : string :=
  let dir := cleanPath (absolutePath current_path d) in
  let file := cleanPath fileName in
  if isRelativePath file || isRelativePath dir then file
  else
    let dirElts := split_skip_empty dir in
    let fileElts := split_skip_empty file in
    let i := common_prefix dirElts fileElts in
    let result := dotdots (List.length dirElts - i) ++ join (skipn i fileElts) in
    or_dot result.

End QDir.

(** ** Exceptions, logging, the SSH session *)

Inductive exception : Type :=
| runtime_error (what : string)      (* std::runtime_error *)
| SSHFSMissingError                  (* mp::SSHFSMissingError *)
| out_of_range (what : string)       (* std::out_of_range *)
| invalid_argument (what : string)   (* std::invalid_argument *)
| system_error (what : string).      (* std::system_error *)

(** The two [mpl::Level] values this file logs at. *)
Inductive Level : Type := warning | debug.

Record LogEntry : Type := mkLog {
  level : Level;
  log_category : string;
  message : string
}.

Definition category : string := "sshfs mount".

(** What [SSHSession::exec] hands back once the remote command has run. *)
Record SSHProcess : Type := mkProcess {
  exit_code : Z;
  read_std_output : string;
  read_std_error : string
}.

(** The transport is an external collaborator: a session answers a command
    line with a finished process and moves to its next state. *)
Class SSHSession (S : Type) : Type := {
  exec : S -> string -> SSHProcess * S
}.

(** The session together with what the program leaves behind outside it:
    the log, and (as a ghost trace) the command lines sent so far. *)
Record World (S : Type) : Type := mkWorld {
  session : S;
  log : list LogEntry;
  issued : list string
}.
Arguments mkWorld {S} _ _ _.
Arguments session {S} _.
Arguments log {S} _.
Arguments issued {S} _.

(** How a computation ends: with a value, with an exception on its way
    up, or in undefined behaviour, after which nothing is known. *)
Inductive Result (A : Type) : Type :=
| Ok (a : A)
| Throw (e : exception)
| Undefined.
Arguments Ok {A} _.
Arguments Throw {A} _.
Arguments Undefined {A}.

Definition M (S A : Type) : Type := World S -> Result A * World S.

Definition ret {S A} (a : A) : M S A := fun w => (Ok a, w).

Definition throw {S A} (e : exception) : M S A := fun w => (Throw e, w).

Definition bind {S A B} (m : M S A) (k : A -> M S B) : M S B :=
  fun w =>
    match m w with
    | (Ok a, w') => k a w'
    | (Throw e, w') => (Throw e, w')
    | (Undefined, w') => (Undefined, w')
    end.

Declare Scope cmd_scope.
Delimit Scope cmd_scope with cmd.
Notation "x <- m ;; k" := (bind m (fun x => k))
  (at level 61, m at next level, right associativity) : cmd_scope.
Notation "m ;;; k" := (bind m (fun _ => k))
  (at level 61, right associativity) : cmd_scope.
Local Open Scope cmd_scope.

(** [mpl::log(level, category, message)] *)
Definition mpl_log {S} (l : Level) (c msg : string) : M S unit :=
  fun w => (Ok tt, mkWorld (session w) (log w ++ [mkLog l c msg]) (issued w)).

(** [session.exec(cmd)] *)
Definition session_exec {S} `{SSHSession S} (cmd : string) : M S SSHProcess :=
  fun w =>
    let '(p, s') := exec (session w) cmd in
    (Ok p, mkWorld s' (log w) (issued w ++ [cmd])).

(** An [option] from [Std.substr] as a possibly throwing computation. *)
Definition or_out_of_range {S A} (what : string) (o : option A) : M S A :=
  match o with
  | Some a => ret a
  | None => throw (out_of_range what)
  end.

(** An [option] from [Std.pop_back] as a computation whose behaviour may
    be undefined. *)
Definition or_undefined {S A} (o : option A) : M S A :=
  match o with
  | Some a => ret a
  | None => fun w => (Undefined, w)
  end.

(** ** The anonymous namespace *)

(** The command line of [run_string_cmd]: [cmd] in backquotes, then the
    sentinel. *)
Definition echo_cmd (cmd : string) : string := "echo `" ++ cmd ++ "`-".

(** The home directory field of a user's password-database entry. *)
Definition getent_cmd (username : string) : string :=
  "getent passwd " ++ username ++ " | cut -d : -f 6".

Section Helpers.

Context {S : Type} `{SSHSession S}.

(** [run_cmd(session, cmd, error_handler)] *)
Definition run_cmd_with (cmd : string)
    (error_handler : SSHProcess -> M S unit) : M S string :=
  ssh_process <- session_exec cmd ;;
  (if (exit_code ssh_process =? 0)%Z then ret tt
   else error_handler ssh_process) ;;;
  ret (read_std_output ssh_process).

(** [run_cmd(session, cmd)]: a failing command throws its stderr. *)
Definition run_cmd (cmd : string) : M S string :=
  let error_handler := fun proc : SSHProcess =>
    throw (runtime_error (read_std_error proc)) in
  run_cmd_with cmd error_handler.

(** [run_string_cmd(session, cmd)] *)
Definition run_string_cmd (cmd : string) : M S string :=
  ret0 <- run_cmd (echo_cmd cmd) ;;
  let ret1 := utils.trim_end ret0 in
  if (Std.size ret1 =? 0)%N then ret ret1
  else or_undefined (Std.pop_back ret1).

(** [check_sshfs_exists(session)] *)
Definition check_sshfs_exists : M S unit :=
  let error_handler := fun proc : SSHProcess =>
    mpl_log warning category
      ("Unable to determine if 'sshfs' is installed: "
         ++ read_std_error proc) ;;;
    throw SSHFSMissingError in
  run_cmd_with "which sshfs" error_handler ;;; ret tt.

(** [expand_home_directory(session, target)] *)
Definition expand_home_directory (target : string) : M S string :=
  if Ascii.eqb "~"%char (Std.char_at target 0) then
    let pos := if (1 =? Std.size target)%N then 1%N
               else Std.find target "/"%char 1%N in
    home <-
      (if (1 =? pos)%N then run_string_cmd "pwd"
       else
         username <- or_out_of_range "basic_string::substr"
                       (Std.substr target 1%N (Std.size_sub pos 1%N)) ;;
         home <- run_string_cmd (getent_cmd username) ;;
         if (0 =? Std.size home)%N then
           throw (runtime_error
                    ("user " ++ username
                       ++ " does not exist or does not have a home defined"))
         else ret home) ;;
    rest <- or_out_of_range "basic_string::substr"
              (Std.substr target pos (Std.size_sub (Std.size target) 1%N)) ;;
    ret (home ++ rest)
  else ret target.

(** [std::stoi(output)] with its two exceptions. *)
Definition std_stoi (output : string) : M S Z :=
  match Std.stoi output with
  | Std.stoi_value v => ret v
  | Std.stoi_invalid_argument => throw (invalid_argument "stoi")
  | Std.stoi_out_of_range => throw (out_of_range "stoi")
  end.

(** [QDir::currentPath()] of the local process, and [__FILE__]. *)
Variable current_path : string.
Variable source_file : string.

(** The command line that looks for the deepest existing directory. *)
Definition existing_dir_cmd (absolute : string) : string :=
  "sudo /bin/bash -c 'P=" ++ dq ++ absolute ++ dq ++ "; while [ ! -d " ++ dq
    ++ "$P/" ++ dq ++ " ]; do P=${P%/*}; done; echo $P/'".

(** [get_path_split(session, target)] *)
Definition get_path_split (target : string) : M S (string * string) :=
  let complete_path := QDir.new target in
  absolute <-
    (if QDir.isRelative complete_path then
       home <- run_string_cmd "pwd" ;;
       ret (home ++ "/" ++ QDir.path complete_path)
     else ret (QDir.path complete_path)) ;;
  existing <- run_string_cmd (existing_dir_cmd absolute) ;;
  ret (existing,
       QDir.relativeFilePath current_path (QDir.new existing) absolute).

Definition mkdir_cmd (root relative_target : string) : string :=
  "sudo /bin/bash -c 'cd " ++ dq ++ root ++ dq ++ " && mkdir -p " ++ dq
    ++ relative_target ++ dq ++ "'".

(** [make_target_dir(session, root, relative_target)] *)
Definition make_target_dir (root relative_target : string) : M S unit :=
  match relative_target with
  | EmptyString => ret tt
  | _ => run_cmd (mkdir_cmd root relative_target) ;;; ret tt
  end.

Definition chown_cmd (root vm_user vm_group first_dir : string) : string :=
  "sudo /bin/bash -c 'cd " ++ dq ++ root ++ dq ++ " && chown -R " ++ vm_user
    ++ ":" ++ vm_group ++ " " ++ first_dir ++ "'".

(** The first directory of a relative path. *)
Definition first_dir_of (relative_target : string) : string :=
  let first_slash := Std.find_first_of relative_target "/"%char in
  if (Std.npos =? first_slash)%N then relative_target
  else match Std.substr relative_target 0%N first_slash with
       | Some d => d
       | None => EmptyString
       end.

(** [set_owner_for(session, root, relative_target)] *)
Definition set_owner_for (root relative_target : string) : M S unit :=
  vm_user <- run_string_cmd "id -nu" ;;
  vm_group <- run_string_cmd "id -ng" ;;
  let first_dir := first_dir_of relative_target in
  run_cmd (chown_cmd root vm_user vm_group first_dir) ;;; ret tt.

(** [std::unordered_map<int, int>], handed through untouched. *)
Definition id_map : Type := list (Z * Z).

(** What the [mp::SftpServer] constructor is given. *)
Record SftpServer : Type := mkSftpServer {
  server_session : S;
  server_source : string;
  server_target : string;
  server_gid_map : id_map;
  server_uid_map : id_map;
  default_uid : Z;
  default_gid : Z
}.

(** [std::move(session)]: the session as it stands now. *)
Definition move_session : M S S := fun w => (Ok (session w), w).

(** [make_sftp_server(session, source, target, gid_map, uid_map)] *)
Definition make_sftp_server (source target : string)
    (gid_map uid_map : id_map) : M S SftpServer :=
  mpl_log debug category
    (source_file ++ ":171 make_sftp_server(source = " ++ source
       ++ ", target = " ++ target ++ ", …): ") ;;;
  check_sshfs_exists ;;;
  expanded_target <- expand_home_directory target ;;
  split <- get_path_split expanded_target ;;
  let '(leading, missing) := split in
  make_target_dir leading missing ;;;
  set_owner_for leading missing ;;;
  output <- run_cmd "id -u" ;;
  mpl_log debug category
    (source_file ++ ":188 make_sftp_server(): `id -u` = " ++ output) ;;;
  default_uid <- std_stoi output ;;
  output <- run_cmd "id -g" ;;
  mpl_log debug category
    (source_file ++ ":192 make_sftp_server(): `id -g` = " ++ output) ;;;
  default_gid <- std_stoi output ;;
  moved <- move_session ;;
  ret (mkSftpServer moved source expanded_target gid_map uid_map
         default_uid default_gid).

End Helpers.

Arguments mkSftpServer {S} _ _ _ _ _ _ _.
Arguments server_session {S} _.
Arguments server_source {S} _.
Arguments server_target {S} _.
Arguments server_gid_map {S} _.
Arguments server_uid_map {S} _.
Arguments default_uid {S} _.
Arguments default_gid {S} _.

(** ** The shell script of [get_path_split]

    [P="<absolute>"; while [ ! -d "$P/" ]; do P=${P%/*}; done; echo $P/]
    runs on the remote host; [test_d] is its [[ -d ... ]].  The path is put
    between the double quotes as it is, the test quotes [$P/], and the
    [echo] that prints the result does not. *)
Module Bash.

(** The characters of the default [$IFS]: space, tab and newline.  The
    shell splits the value of an unquoted expansion at them. *)
Definition IFS (c : ascii) : bool :=
  let n := nat_of_ascii c in
  Nat.eqb n 32 || Nat.eqb n 9 || Nat.eqb n 10.

(** The characters that end or escape a quoted string, or start an
    expansion inside double quotes: the two quotes, [$], the backquote and
    the backslash. *)
Definition quoting (c : ascii) : bool :=
  let n := nat_of_ascii c in
  Nat.eqb n 34 || Nat.eqb n 39 || Nat.eqb n 36 || Nat.eqb n 96
    || Nat.eqb n 92.

(** The characters of pathname patterns: [*], [?] and [[]. *)
Definition pattern (c : ascii) : bool :=
  let n := nat_of_ascii c in
  Nat.eqb n 42 || Nat.eqb n 63 || Nat.eqb n 91.

(** A string that the shell takes and prints as it stands: it holds no
    character of the three kinds. *)
Fixpoint literal (s : string) : bool :=
  match s with
  | EmptyString => true
  | String c r => negb (quoting c || IFS c || pattern c) && literal r
  end.

(** A value cut at every character of [$IFS], empty pieces kept. *)
Fixpoint fields (v : string) : list string :=
  match v with
  | EmptyString => [EmptyString]
  | String c r =>
      if IFS c then EmptyString :: fields r
      else match fields r with
           | h :: t => String c h :: t
           | [] => [String c EmptyString]
           end
  end.

(** Word splitting: the pieces that are not empty. *)
Definition words (v : string) : list string :=
  filter (fun f => negb (String.eqb f EmptyString)) (fields v).

(** What [echo] prints for its arguments, before the newline: the
    arguments with one space between them. *)
Fixpoint echo (args : list string) : string :=
  match args with
  | [] => EmptyString
  | [x] => x
  | x :: r => x ++ " " ++ echo r
  end.

(** What [echo $V] prints when [V] holds [v]: the value is split into
    words, and [echo] puts one space between them.  Pathname expansion of
    the words is left out: a value that holds [*], [?] or [[] is outside
    what this describes. *)
Definition unquoted (v : string) : string := echo (words v).

(** [${P%/*}] when [P] holds a slash: [P] without its last slash and what
    follows it. *)
Fixpoint chop (P : string) : option string :=
  match P with
  | EmptyString => None
  | String c r =>
      match chop r with
      | Some r' => Some (String c r')
      | None => if Ascii.eqb c "/"%char then Some EmptyString else None
      end
  end.

(** [${P%/*}]; a value without a slash is left as it is. *)
Definition strip_last (P : string) : string :=
  match chop P with
  | Some P' => P'
  | None => P
  end.

(** The loop, at most [fuel] tests long; [None] when it is still running
    after them. *)
Fixpoint existing_dir_loop (test_d : string -> bool) (fuel : nat)
    (P : string) : option string :=
  match fuel with
  | O => None
  | Datatypes.S fuel' =>
      if test_d (P ++ "/") then Some P
      else existing_dir_loop test_d fuel' (strip_last P)
  end.

(** A value of [n] characters is chopped at most [n] times. *)
Definition existing_dir (test_d : string -> bool) (P : string) : option string :=
  existing_dir_loop test_d (Datatypes.S (String.length P)) P.

End Bash.

(** ** A remote host

    The machine at the other end of the session is not part of the
    repository.  This model of it knows the command lines that
    [sshfs_mount.cpp] sends and answers them over a tree of directories with
    owners: it is the instance of [SSHSession] on which the effects of the
    commands are stated.  A path between double quotes is read up to the
    next double quote, and the search prints its result through the
    unquoted [echo] of the script; the names of users and groups are taken
    as single words. *)
Module Remote.

Definition path : Type := list string.

Record dir : Type := mkDir {
  dir_path : path;
  dir_user : string;
  dir_group : string
}.

Record host : Type := mkHost {
  dirs : list dir;                   (* the directories, the root included *)
  cwd : path;                        (* where a login shell starts *)
  user : string;                     (* id -nu *)
  group : string;                    (* id -ng *)
  uid : Z;                           (* id -u *)
  gid : Z;                           (* id -g *)
  passwd : list (string * string);   (* user name, home directory *)
  sshfs : bool                       (* sshfs is installed *)
}.

Fixpoint path_eqb (p q : path) : bool :=
  match p, q with
  | [], [] => true
  | x :: p', y :: q' => String.eqb x y && path_eqb p' q'
  | _, _ => false
  end.

(** [base] is [p] or one of its ancestors. *)
Fixpoint is_under (base p : path) : bool :=
  match base, p with
  | [], _ => true
  | x :: base', y :: p' => String.eqb x y && is_under base' p'
  | _ :: _, [] => false
  end.

Fixpoint owner_of (fs : list dir) (p : path) : option (string * string) :=
  match fs with
  | [] => None
  | d :: r =>
      if path_eqb (dir_path d) p then Some (dir_user d, dir_group d)
      else owner_of r p
  end.

Definition is_dir (fs : list dir) (p : path) : bool :=
  match owner_of fs p with
  | Some _ => true
  | None => false
  end.

(** Walking [segs] down from the directory [cur]. *)
Fixpoint resolve (fs : list dir) (cur : path) (segs : list string)
    : option path :=
  match segs with
  | [] => Some cur
  | seg :: r =>
      if String.eqb seg EmptyString || String.eqb seg "." then resolve fs cur r
      else if String.eqb seg ".." then resolve fs (removelast cur) r
      else
        let next := (cur ++ [seg])%list in
        if is_dir fs next then resolve fs next r else None
  end.

(** The directory that the name [p] stands for, seen from [base]. *)
Definition lookup (fs : list dir) (base : path) (p : string) : option path :=
  match p with
  | EmptyString => None
  | _ =>
      let start := if QDir.starts_with_slash p then [] else base in
      if is_dir fs start then resolve fs start (QDir.split p) else None
  end.

(** [[ -d p ]] in a shell started by the session. *)
Definition test_d (h : host) (p : string) : bool :=
  match lookup (dirs h) (cwd h) p with
  | Some _ => true
  | None => false
  end.

Definition render (p : path) : string := "/" ++ QDir.join p.

(** [mkdir -p], run as root. *)
Fixpoint mkdir_p (fs : list dir) (cur : path) (segs : list string)
    : list dir :=
  match segs with
  | [] => fs
  | seg :: r =>
      if String.eqb seg EmptyString || String.eqb seg "." then mkdir_p fs cur r
      else if String.eqb seg ".." then mkdir_p fs (removelast cur) r
      else
        let next := (cur ++ [seg])%list in
        if is_dir fs next then mkdir_p fs next r
        else mkdir_p (fs ++ [mkDir next "root" "root"])%list next r
  end.

(** [chown -R u:g] on the directory [p]. *)
Definition chown_R (fs : list dir) (p : path) (u g : string) : list dir :=
  map (fun d => if is_under p (dir_path d) then mkDir (dir_path d) u g else d)
      fs.

Fixpoint home_of (db : list (string * string)) (name : string) : option string :=
  match db with
  | [] => None
  | (n, home) :: r => if String.eqb n name then Some home else home_of r name
  end.

(** The command lines the host understands. *)
Inductive simple : Type :=
| WhichSshfs
| IdU | IdG | IdNu | IdNg
| Pwd
| Getent (name : string)
| ExistingDir (absolute : string)
| MkdirP (root relative : string)
| ChownR (root u g operand : string)
| Unknown.

Inductive command : Type :=
| Plain (c : simple)
| EchoDash (c : simple).        (* echo `c`- *)

Fixpoint strip_prefix (pre s : string) : option string :=
  match pre, s with
  | EmptyString, _ => Some s
  | String a pre', String b s' =>
      if Ascii.eqb a b then strip_prefix pre' s' else None
  | String _ _, EmptyString => None
  end.

Fixpoint strip_suffix (suf s : string) : option string :=
  if String.eqb s suf then Some EmptyString
  else match s with
       | EmptyString => None
       | String c r =>
           match strip_suffix suf r with
           | Some r' => Some (String c r')
           | None => None
           end
       end.

(** [s] cut at its first [c]. *)
Fixpoint split_at (c : ascii) (s : string) : option (string * string) :=
  match s with
  | EmptyString => None
  | String a r =>
      if Ascii.eqb a c then Some (EmptyString, r)
      else match split_at c r with
           | Some (x, y) => Some (String a x, y)
           | None => None
           end
  end.

Definition quote : ascii := ascii_of_nat 34.

Definition parse_cd (rest : string) : simple :=
  match split_at quote rest with
  | Some (root, rest) =>
      match strip_prefix (" && mkdir -p " ++ dq) rest with
      | Some rest =>
          match strip_suffix (dq ++ "'") rest with
          | Some relative => MkdirP root relative
          | None => Unknown
          end
      | None =>
          match strip_prefix " && chown -R " rest with
          | Some rest =>
              match split_at ":"%char rest with
              | Some (u, rest) =>
                  match split_at " "%char rest with
                  | Some (g, rest) =>
                      match strip_suffix "'" rest with
                      | Some operand => ChownR root u g operand
                      | None => Unknown
                      end
                  | None => Unknown
                  end
              | None => Unknown
              end
          | None => Unknown
          end
      end
  | None => Unknown
  end.

Definition parse_simple (cmd : string) : simple :=
  if String.eqb cmd "which sshfs" then WhichSshfs
  else if String.eqb cmd "id -u" then IdU
  else if String.eqb cmd "id -g" then IdG
  else if String.eqb cmd "id -nu" then IdNu
  else if String.eqb cmd "id -ng" then IdNg
  else if String.eqb cmd "pwd" then Pwd
  else
    match strip_prefix "getent passwd " cmd with
    | Some rest =>
        match strip_suffix " | cut -d : -f 6" rest with
        | Some name => Getent name
        | None => Unknown
        end
    | None =>
        match strip_prefix ("sudo /bin/bash -c 'P=" ++ dq) cmd with
        | Some rest =>
            (* The string of [P=] ends at the next double quote; if that
               one is part of the path, what follows is not the script,
               and nothing is printed. *)
            match split_at quote rest with
            | Some (absolute, rest) =>
                if String.eqb rest
                     ("; while [ ! -d " ++ dq ++ "$P/" ++ dq
                        ++ " ]; do P=${P%/*}; done; echo $P/'")
                then ExistingDir absolute else Unknown
            | None => Unknown
            end
        | None =>
            match strip_prefix ("sudo /bin/bash -c 'cd " ++ dq) cmd with
            | Some rest => parse_cd rest
            | None => Unknown
            end
        end
    end.

Definition parse (cmd : string) : command :=
  match strip_prefix "echo `" cmd with
  | Some rest =>
      match strip_suffix "`-" rest with
      | Some inner => EchoDash (parse_simple inner)
      | None => Plain (parse_simple cmd)
      end
  | None => Plain (parse_simple cmd)
  end.

Definition decimal (z : Z) : string :=
  DecimalString.NilZero.string_of_int (Z.to_int z).

(** What a command does: exit status, the lines it prints, its stderr and
    the host afterwards. *)
Definition with_dirs (h : host) (fs : list dir) : host :=
  mkHost fs (cwd h) (user h) (group h) (uid h) (gid h) (passwd h) (sshfs h).

Definition run_simple (h : host) (c : simple)
    : Z * list string * string * host :=
  match c with
  | WhichSshfs =>
      if sshfs h then (0%Z, ["/usr/bin/sshfs"], EmptyString, h)
      else (1%Z, [], EmptyString, h)
  | IdU => (0%Z, [decimal (uid h)], EmptyString, h)
  | IdG => (0%Z, [decimal (gid h)], EmptyString, h)
  | IdNu => (0%Z, [user h], EmptyString, h)
  | IdNg => (0%Z, [group h], EmptyString, h)
  | Pwd => (0%Z, [render (cwd h)], EmptyString, h)
  | Getent name =>
      match home_of (passwd h) name with
      | Some home => (0%Z, [home], EmptyString, h)
      | None => (0%Z, [], EmptyString, h)
      end
  | ExistingDir absolute =>
      match Bash.existing_dir (test_d h) absolute with
      | Some P => (0%Z, [Bash.unquoted (P ++ "/")], EmptyString, h)
      | None => (124%Z, [], "timed out", h)
      end
  | MkdirP root relative =>
      match lookup (dirs h) (cwd h) root with
      | None => (1%Z, [], "cd: No such file or directory", h)
      | Some base =>
          match relative with
          | EmptyString =>
              (1%Z, [], "mkdir: cannot create directory", h)
          | _ =>
              let start :=
                if QDir.starts_with_slash relative then [] else base in
              (0%Z, [], EmptyString,
               with_dirs h (mkdir_p (dirs h) start (QDir.split relative)))
          end
      end
  | ChownR root u g operand =>
      match lookup (dirs h) (cwd h) root with
      | None => (1%Z, [], "cd: No such file or directory", h)
      | Some base =>
          match operand with
          | EmptyString => (1%Z, [], "chown: missing operand", h)
          | _ =>
              match lookup (dirs h) base operand with
              | None => (1%Z, [], "chown: cannot access", h)
              | Some p =>
                  (0%Z, [], EmptyString, with_dirs h (chown_R (dirs h) p u g))
              end
          end
      end
  | Unknown => (127%Z, [], "command not found", h)
  end.

Fixpoint unlines (l : list string) : string :=
  match l with
  | [] => EmptyString
  | x :: r => x ++ nl ++ unlines r
  end.

Fixpoint unwords (l : list string) : string :=
  match l with
  | [] => EmptyString
  | [x] => x
  | x :: r => x ++ " " ++ unwords r
  end.

Definition run (h : host) (c : command) : SSHProcess * host :=
  match c with
  | Plain c =>
      let '(code, lines, err, h') := run_simple h c in
      (mkProcess code (unlines lines) err, h')
  | EchoDash c =>
      let '(_, lines, err, h') := run_simple h c in
      (mkProcess 0 (unwords lines ++ "-" ++ nl) err, h')
  end.

#[global] Instance ssh_session : SSHSession host :=
  {| exec := fun h cmd => run h (parse cmd) |}.

(** Nothing logged, nothing sent yet. *)
Definition world (h : host) : World host := mkWorld h [] [].

(** The directories after [mkdir -p]: the three new ones belong to root. *)
Definition created (h : host) : list dir :=
  (dirs h ++ [mkDir ["r"; "a"] "root" "root"]
     ++ [mkDir ["r"; "a"; "b"] "root" "root"]
     ++ [mkDir ["r"; "a"; "b"; "c"] "root" "root"])%list.

(** The directories after [chown -R]. *)
Definition owned (h : host) : list dir :=
  chown_R (created h) ["r"; "a"] (user h) (group h).

(** A host with [/home/ubuntu] and [/r], where [ubuntu] logs in. *)
Definition example : host :=
  mkHost
    [mkDir [] "root" "root"; mkDir ["home"] "root" "root";
     mkDir ["home"; "ubuntu"] "ubuntu" "ubuntu"; mkDir ["r"] "root" "root"]
    ["home"; "ubuntu"] "ubuntu" "ubuntu" 1000 1000
    [("ubuntu", "/home/ubuntu")] true.

(** The same host with one more directory under [/r], whose name holds
    two spaces. *)
Definition spaced : host :=
  with_dirs example (dirs example ++ [mkDir ["r"; "x  y"] "root" "root"])%list.

End Remote.

(** ** SshfsMount *)

(** Where the worker thread stands in its body:
    [std::cout << "Connected"; sftp_server->run(); std::cout << "Stopped"]. *)
Inductive Worker : Type :=
| Starting       (* created, nothing printed yet *)
| Serving        (* inside [sftp_server->run()] *)
| Finished.      (* the body has returned *)

(** [std::thread]: the thread of execution and whether the object still
    stands for it. *)
Record thread : Type := mkThread {
  worker : Worker;
  joinable : bool
}.

(** How a call on the handle ends. *)
Inductive Call (A : Type) : Type :=
| Returned (a : A)         (* the call has returned *)
| Waiting                  (* the caller is still blocked when the events
                              have run out *)
| Raised (e : exception)   (* an exception leaves the call *)
| Terminated.              (* [std::terminate] has ended the process *)
Arguments Returned {A} _.
Arguments Waiting {A}.
Arguments Raised {A} _.
Arguments Terminated {A}.

Section Mount.

Context {S : Type} `{SSHSession S}.

Record SshfsMount : Type := mkMount {
  sftp_server : SftpServer (S := S);
  stop_invoked : bool;            (* the server has been asked to stop *)
  sftp_thread : thread;
  cout : list string;             (* what the worker has printed *)
  threads_started : nat           (* ghost: threads ever created for it *)
}.

(** Modelled from the spec: [mp::SftpServer::stop] is defined in
    [sftp_server.cpp], not in [sshfs_mount.cpp]; the specification has it
    "request termination, safe to call once or more". *)
Definition SftpServer_stop (m : SshfsMount) : SshfsMount :=
  mkMount (sftp_server m) true (sftp_thread m) (cout m) (threads_started m).

(** Modelled from the spec: [mp::SftpServer::run] is defined in
    [sftp_server.cpp], not in [sshfs_mount.cpp]; the specification has it
    a "blocking serve loop" that leaves when
    termination was requested.  One turn of the loop: it returns when asked
    to stop or when the session has ended ([eof]), and serves on
    otherwise. *)
Definition SftpServer_run_returns (m : SshfsMount) (eof : bool) : bool :=
  stop_invoked m || eof.

(** One step of the worker thread. *)
Definition worker_step (eof : bool) (m : SshfsMount) : SshfsMount :=
  match worker (sftp_thread m) with
  | Starting =>
      mkMount (sftp_server m) (stop_invoked m)
        (mkThread Serving (joinable (sftp_thread m)))
        (cout m ++ ["Connected"]) (threads_started m)
  | Serving =>
      if SftpServer_run_returns m eof then
        mkMount (sftp_server m) (stop_invoked m)
          (mkThread Finished (joinable (sftp_thread m)))
          (cout m ++ ["Stopped"]) (threads_started m)
      else m
  | Finished => m
  end.

Fixpoint worker_steps (eofs : list bool) (m : SshfsMount) : SshfsMount :=
  match eofs with
  | [] => m
  | eof :: r => worker_steps r (worker_step eof m)
  end.

(** The caller of [join] waits while the worker runs on, one step for each
    entry of [eofs] (whether the session ended meanwhile); once the worker
    has finished, the thread object stands for no thread any more. *)
Fixpoint thread_wait (eofs : list bool) (m : SshfsMount) : Call SshfsMount :=
  match worker (sftp_thread m) with
  | Finished =>
      Returned (mkMount (sftp_server m) (stop_invoked m)
                  (mkThread Finished false) (cout m) (threads_started m))
  | _ =>
      match eofs with
      | [] => Waiting
      | eof :: eofs' => thread_wait eofs' (worker_step eof m)
      end
  end.

(** [sftp_thread.join()]: on a thread that is not joinable the call throws
    [std::system_error] ([std::errc::invalid_argument]). *)
Definition thread_join (eofs : list bool) (m : SshfsMount) : Call SshfsMount :=
  if joinable (sftp_thread m) then thread_wait eofs m
  else Raised (system_error "Invalid argument").

(** [SshfsMount::stop()] *)
Definition stop (eofs : list bool) (m : SshfsMount) : Call SshfsMount :=
  let m := SftpServer_stop m in
  if joinable (sftp_thread m) then thread_join eofs m else Returned m.

(** [SshfsMount::~SshfsMount()]: the body calls [stop()], then the members
    are destroyed.  A destructor is [noexcept]: an exception that leaves
    [stop()] ends the process, and so does the destructor of a
    [std::thread] that is still joinable. *)
Definition destroy (eofs : list bool) (m : SshfsMount) : Call SshfsMount :=
  match stop eofs m with
  | Returned m' =>
      if joinable (sftp_thread m') then Terminated else Returned m'
  | Waiting => Waiting
  | Raised _ => Terminated
  | Terminated => Terminated
  end.

(** The worker is inside its body. *)
Definition worker_running (m : SshfsMount) : bool :=
  match worker (sftp_thread m) with
  | Finished => false
  | _ => true
  end.

(** The handle right after construction: the server was not asked to stop,
    and its one thread has just been created. *)
Definition started (server : SftpServer (S := S)) : SshfsMount :=
  mkMount server false (mkThread Starting true) [] 1.

Variable current_path : string.
Variable source_file : string.

(** [SshfsMount::SshfsMount(session, source, target, gid_map, uid_map)]:
    the server is made first, then the thread is created. *)
Definition SshfsMount_new (source target : string)
    (gid_map uid_map : id_map) : M S SshfsMount :=
  server <- make_sftp_server current_path source_file source target
              gid_map uid_map ;;
  ret (started server).

End Mount.

Arguments SshfsMount S : clear implicits.

(** ** A scripted session

    A session that answers from a table, whatever was asked before. *)
Module Scripted.

Definition script : Type := list (string * SSHProcess).

Fixpoint answer (t : script) (cmd : string) : SSHProcess :=
  match t with
  | [] => mkProcess 127 EmptyString "command not found"
  | (c, p) :: r => if String.eqb c cmd then p else answer r cmd
  end.

#[global] Instance ssh_session : SSHSession script :=
  {| exec := fun t cmd => (answer t cmd, t) |}.

(** Nothing logged, nothing sent yet. *)
Definition world (t : script) : World script := mkWorld t [] [].

End Scripted.

(** ** Vocabulary of the statements *)

(** Only whitespace. *)
Fixpoint all_space (s : string) : bool :=
  match s with
  | EmptyString => true
  | String c r => Std.isspace c && all_space r
  end.

(** The character [c] occurs in [s]. *)
Fixpoint occurs (c : ascii) (s : string) : bool :=
  match s with
  | EmptyString => false
  | String a r => Ascii.eqb a c || occurs c r
  end.

(** The session in state [s] answers [cmd] with exit status 0 and the
    output [out], and is in state [s'] afterwards. *)
Definition answers {S : Type} `{SSHSession S} (s : S) (cmd out : string)
    (s' : S) : Prop :=
  exit_code (fst (exec s cmd)) = 0%Z
  /\ read_std_output (fst (exec s cmd)) = out
  /\ snd (exec s cmd) = s'.

(** What [run_string_cmd] makes of a capture. *)
Definition untrimmed (raw : string) : string :=
  let r := utils.trim_end raw in
  if (Std.size r =? 0)%N then r else Std.without_last r.

(** The world after [cmd] was sent and the session moved on to [s']. *)
Definition sent {S : Type} (w : World S) (cmd : string) (s' : S) : World S :=
  mkWorld s' (log w) (issued w ++ [cmd]).

(** The absolute path that [get_path_split] works on, when the remote
    working directory is [cwd]. *)
Definition absolute_target (cwd target : string) : string :=
  let complete_path := QDir.new target in
  if QDir.isRelative complete_path
  then cwd ++ "/" ++ QDir.path complete_path
  else QDir.path complete_path.

(** The remote host behind the session, with [test_d] for its
    [[ -d ... ]], answers what [get_path_split] asks about [target]: [pwd]
    if the target is relative, for which its [echo] prints [cwd], then the
    search for the deepest existing directory, whose script ends with the
    unquoted [echo $P/] when its loop has ended with [P].  The session is
    in state [s'] afterwards. *)
Definition host_answers_split {S : Type} `{SSHSession S}
    (test_d : string -> bool) (cwd : string) (s : S) (target : string)
    (s' : S) : Prop :=
  exists s1,
    (if QDir.isRelative (QDir.new target)
     then answers s (echo_cmd "pwd") (cwd ++ "-" ++ nl) s1
     else s1 = s)
    /\ forall P,
         Bash.existing_dir test_d (absolute_target cwd target) = Some P ->
         answers s1 (echo_cmd (existing_dir_cmd (absolute_target cwd target)))
           (Bash.unquoted (P ++ "/") ++ "-" ++ nl) s'.

(** What [make_sftp_server] does between resolving the target and asking
    for the numeric ids: split the path, create what is missing, set its
    owner. *)
Definition provision {S : Type} `{SSHSession S}
    (current_path target : string) : M S unit :=
  split <- get_path_split current_path target ;;
  let '(leading, missing) := split in
  make_target_dir leading missing ;;;
  set_owner_for leading missing.

(** Cleaned paths, segment by segment. *)
Module Clean.

Import QDir.

(** A segment as [split] gives them when empty parts are skipped. *)
Definition segment (x : string) : Prop :=
  nonempty x = true /\ occurs slash x = false.

Definition all_dotdot (s : list string) : Prop := Forall (eq "..") s.

(** A stack of cleaned segments, last one first: no [.], and every [..]
    at the bottom. *)
Fixpoint normal (s : list string) : Prop :=
  match s with
  | [] => True
  | x :: r => x <> "." /\ (x = ".." -> all_dotdot r) /\ normal r
  end.

Definition stack_of (l : list string) : list string :=
  fold_left push_segment l [].

End Clean.

(** What holds of a handle from its construction up to its first [stop]:
    the server was not asked to stop, the one thread is joinable. *)
Definition before_stop {S : Type} (m : SshfsMount S) : Prop :=
  stop_invoked m = false
  /\ joinable (sftp_thread m) = true
  /\ threads_started m = 1.

(** The number that the decimal digits [d] add to [acc], read from the
    left. *)
Fixpoint uint_value (d : Decimal.uint) (acc : Z) : Z :=
  match d with
  | Decimal.Nil => acc
  | Decimal.D0 l => uint_value l (10 * acc + 0)
  | Decimal.D1 l => uint_value l (10 * acc + 1)
  | Decimal.D2 l => uint_value l (10 * acc + 2)
  | Decimal.D3 l => uint_value l (10 * acc + 3)
  | Decimal.D4 l => uint_value l (10 * acc + 4)
  | Decimal.D5 l => uint_value l (10 * acc + 5)
  | Decimal.D6 l => uint_value l (10 * acc + 6)
  | Decimal.D7 l => uint_value l (10 * acc + 7)
  | Decimal.D8 l => uint_value l (10 * acc + 8)
  | Decimal.D9 l => uint_value l (10 * acc + 9)
  end%Z.

(** [s] does not go on with a digit. *)
Definition no_digit_ahead (s : string) : Prop :=
  match s with
  | EmptyString => True
  | String c _ => Std.digit_of c = None
  end.

(** The three lines that [make_sftp_server] logs. *)
Definition entry_call (source_file source target : string) : LogEntry :=
  mkLog debug category
    (source_file ++ ":171 make_sftp_server(source = " ++ source
       ++ ", target = " ++ target ++ ", …): ").

Definition entry_uid (source_file output : string) : LogEntry :=
  mkLog debug category
    (source_file ++ ":188 make_sftp_server(): `id -u` = " ++ output).

Definition entry_gid (source_file output : string) : LogEntry :=
  mkLog debug category
    (source_file ++ ":192 make_sftp_server(): `id -g` = " ++ output).

(** What is sent to a host that lacks [a/b/c] under [/r], up to the
    [chown]. *)
Definition abc_commands (h : Remote.host) : list string :=
  ["which sshfs"; echo_cmd (existing_dir_cmd "/r/a/b/c");
   mkdir_cmd "/r/" "a/b/c"; echo_cmd "id -nu"; echo_cmd "id -ng";
   chown_cmd "/r/" (Remote.user h) (Remote.group h) "a"].

(** A segment that names a directory entry: not empty, without a slash,
    and neither [.] nor [..]. *)
Definition plain (x : string) : Prop :=
  Clean.segment x /\ x <> "." /\ x <> "..".

(** The absolute path made of the segments [C], without a slash at its
    end: the empty string for the root, as in the script of
    [get_path_split]. *)
Definition rooted (C : list string) : string :=
  match C with
  | [] => EmptyString
  | _ => "/" ++ QDir.join C
  end.

(** * Properties *)

(** Evaluates a closed subterm of the goal. *)
Ltac compute_term t :=
  let v := eval vm_compute in t in change t with v; cbv beta iota zeta.


(** ** Strings *)

Lemma append_assoc (a b c : string) : (a ++ b) ++ c = a ++ b ++ c.
Proof. induction a as [|x a IH]; simpl; [reflexivity | now rewrite IH]. Qed.

Lemma length_append (a b : string) :
  String.length (a ++ b) = (String.length a + String.length b)%nat.
Proof. induction a as [|x a IH]; simpl; [reflexivity | now rewrite IH]. Qed.

Lemma trim_end_all_space (s : string) :
  all_space s = true -> utils.trim_end s = EmptyString.
Proof.
  induction s as [|c s IH]; simpl; [reflexivity |].
  intros Hs. apply andb_prop in Hs as [Hc Hr].
  rewrite (IH Hr), Hc. reflexivity.
Qed.

(** Whitespace after a character that is none is cut, and nothing else. *)
Lemma trim_end_app (s ws : string) (c : ascii) :
  Std.isspace c = false -> all_space ws = true ->
  utils.trim_end (s ++ String c ws) = s ++ String c EmptyString.
Proof.
  intros Hc Hws. induction s as [|a s IH]; simpl.
  - rewrite (trim_end_all_space ws Hws), Hc. reflexivity.
  - rewrite IH. destruct s; reflexivity.
Qed.

Lemma without_last_snoc (s : string) (c : ascii) :
  Std.without_last (s ++ String c EmptyString) = s.
Proof.
  induction s as [|a s IH]; simpl; [reflexivity |].
  rewrite IH. destruct s; reflexivity.
Qed.

Lemma size_snoc_nonzero (s : string) (c : ascii) :
  (Std.size (s ++ String c EmptyString) =? 0)%N = false.
Proof.
  unfold Std.size. rewrite length_append. simpl.
  apply N.eqb_neq. lia.
Qed.

(** ** The command runners *)

Section Runners.

Context {S : Type} `{SSHSession S}.

Lemma run_cmd_ok (cmd : string) (w : World S) :
  exit_code (fst (exec (session w) cmd)) = 0%Z ->
  run_cmd cmd w =
    (Ok (read_std_output (fst (exec (session w) cmd))),
     sent w cmd (snd (exec (session w) cmd))).
Proof.
  intros Hexit. unfold run_cmd, run_cmd_with, bind, session_exec, sent.
  destruct (exec (session w) cmd) as [p s'] eqn:E. simpl in *.
  rewrite Hexit. reflexivity.
Qed.

Lemma run_cmd_failed (cmd : string) (w : World S) :
  exit_code (fst (exec (session w) cmd)) <> 0%Z ->
  run_cmd cmd w =
    (Throw (runtime_error (read_std_error (fst (exec (session w) cmd)))),
     sent w cmd (snd (exec (session w) cmd))).
Proof.
  intros Hexit. unfold run_cmd, run_cmd_with, bind, session_exec, sent.
  destruct (exec (session w) cmd) as [p s'] eqn:E. simpl in *.
  apply Z.eqb_neq in Hexit. rewrite Hexit. reflexivity.
Qed.

Lemma run_string_cmd_ok (cmd : string) (w : World S) (raw : string) (s' : S) :
  answers (session w) (echo_cmd cmd) raw s' ->
  run_string_cmd cmd w = (Ok (untrimmed raw), sent w (echo_cmd cmd) s').
Proof.
  intros (Hexit & Hout & Hs). unfold run_string_cmd, bind.
  rewrite (run_cmd_ok _ _ Hexit), Hout, Hs. cbv zeta. unfold untrimmed.
  destruct (utils.trim_end raw); reflexivity.
Qed.

(** A capture that ends in the sentinel, with whitespace after it at most,
    gives back what came before the sentinel. *)
Lemma untrimmed_sentinel (out ws : string) :
  all_space ws = true -> untrimmed (out ++ String "-"%char ws) = out.
Proof.
  intros Hws. unfold untrimmed.
  rewrite trim_end_app by (assumption || reflexivity).
  rewrite size_snoc_nonzero. apply without_last_snoc.
Qed.

Lemma run_string_cmd_sentinel (cmd : string) (w : World S) (out ws : string)
    (s' : S) :
  all_space ws = true ->
  answers (session w) (echo_cmd cmd) (out ++ String "-"%char ws) s' ->
  run_string_cmd cmd w = (Ok out, sent w (echo_cmd cmd) s').
Proof.
  intros Hws Hans. rewrite (run_string_cmd_ok _ _ _ _ Hans).
  now rewrite untrimmed_sentinel.
Qed.

End Runners.

(** ** run_string_cmd *)

(** C4, as stated, fails: the capture ["value  -"] comes back as
    ["value  "], with its two trailing spaces, and not as ["value"]. *)
Lemma run_string_cmd_value_counterexample :
  let w := Scripted.world
             [(echo_cmd "cat f", mkProcess 0 "value  -" EmptyString)] in
  answers (session w) (echo_cmd "cat f") "value  -" (session w)
  /\ fst (run_string_cmd "cat f" w) <> Ok "value".
Proof.
  split.
  - repeat split.
  - vm_compute. discriminate.
Qed.

(** C4 (amended): a command whose raw output is ["value  "] followed at once
    by the sentinel comes back from the trimmed-output runner as
    ["value  "]: the sentinel is removed, the two spaces before it are
    kept. *)
Theorem run_string_cmd_keeps_trailing_spaces {S : Type} `{SSHSession S}
    (cmd : string) (w : World S) (s' : S) :
  answers (session w) (echo_cmd cmd) "value  -" s' ->
  run_string_cmd cmd w = (Ok "value  ", sent w (echo_cmd cmd) s').
Proof.
  intros Hans.
  exact (run_string_cmd_sentinel cmd w "value  " EmptyString s' eq_refl Hans).
Qed.

Lemma run_string_cmd_keeps_trailing_spaces_witness :
  let w := Scripted.world
             [(echo_cmd "cat f", mkProcess 0 "value  -" EmptyString)] in
  answers (session w) (echo_cmd "cat f") "value  -" (session w)
  /\ run_string_cmd "cat f" w
     = (Ok "value  ", sent w (echo_cmd "cat f") (session w)).
Proof.
  split.
  - repeat split.
  - apply run_string_cmd_keeps_trailing_spaces. repeat split.
Defined.

(** C5: on the capture ["abc"], which holds no whitespace and does not end
    in the sentinel, the runner gives back ["ab"]: the last character is
    removed whatever it is. *)
Theorem run_string_cmd_drops_last_character :
  let w := Scripted.world
             [(echo_cmd "cat f", mkProcess 0 "abc" EmptyString)] in
  utils.trim_end "abc" = "abc"
  /\ run_string_cmd "cat f" w = (Ok "ab", sent w (echo_cmd "cat f") (session w)).
Proof. split; reflexivity. Qed.

(** ** check_sshfs_exists *)

(** C8: when the probe [which sshfs] exits non-zero, preparing the mount
    logs a warning that carries the probe's stderr and fails with
    [SSHFSMissingError], not with the [runtime_error] of other failing
    commands; no further command is sent, and no mount handle is made. *)
Theorem make_sftp_server_sshfs_missing {S : Type} `{SSHSession S}
    (current_path source_file source target : string)
    (gid_map uid_map : id_map) (w : World S) :
  exit_code (fst (exec (session w) "which sshfs")) <> 0%Z ->
  let proc := fst (exec (session w) "which sshfs") in
  let w' :=
    mkWorld (snd (exec (session w) "which sshfs"))
      (log w
         ++ [mkLog debug category
               (source_file ++ ":171 make_sftp_server(source = " ++ source
                  ++ ", target = " ++ target ++ ", …): ");
             mkLog warning category
               ("Unable to determine if 'sshfs' is installed: "
                  ++ read_std_error proc)])
      (issued w ++ ["which sshfs"]) in
  make_sftp_server current_path source_file source target gid_map uid_map w
    = (Throw SSHFSMissingError, w')
  /\ SshfsMount_new current_path source_file source target gid_map uid_map w
    = (Throw SSHFSMissingError, w')
  /\ forall what,
       fst (make_sftp_server current_path source_file source target
              gid_map uid_map w) <> Throw (runtime_error what).
Proof.
  intros Hexit proc w'.
  assert (E : make_sftp_server current_path source_file source target
                gid_map uid_map w = (Throw SSHFSMissingError, w')).
  { unfold make_sftp_server, check_sshfs_exists, run_cmd_with, bind,
      session_exec, mpl_log. simpl.
    subst proc w'.
    destruct (exec (session w) "which sshfs") as [p s1]. simpl in *.
    apply Z.eqb_neq in Hexit. rewrite Hexit. simpl.
    rewrite <- app_assoc. reflexivity. }
  repeat split.
  - exact E.
  - unfold SshfsMount_new, bind. rewrite E. reflexivity.
  - intros what. rewrite E. simpl. discriminate.
Qed.

Lemma make_sftp_server_sshfs_missing_witness :
  let w := Scripted.world
             [("which sshfs", mkProcess 1 EmptyString "no sshfs")] in
  exit_code (fst (exec (session w) "which sshfs")) <> 0%Z
  /\ fst (make_sftp_server "/" "sshfs_mount.cpp" "/src" "/target" [] [] w)
     = Throw SSHFSMissingError
  /\ map level (log (snd (make_sftp_server "/" "sshfs_mount.cpp" "/src"
                            "/target" [] [] w)))
     = [debug; warning].
Proof.
  intros w.
  assert (Hexit : exit_code (fst (exec (session w) "which sshfs")) <> 0%Z)
    by discriminate.
  split; [exact Hexit |].
  destruct (make_sftp_server_sshfs_missing "/" "sshfs_mount.cpp" "/src"
              "/target" [] [] w Hexit) as (E & _ & _).
  rewrite E. split; reflexivity.
Defined.

(** ** expand_home_directory *)

(** C7: for the target ["~alice/data"] the home directory of [alice], as the
    password database of the remote host gives it, is followed by
    ["/data"]; when the lookup prints nothing, the expansion throws the
    [runtime_error] that names the unknown user and returns no path. *)
Theorem expand_home_directory_alice_data {S : Type} `{SSHSession S}
    (w : World S) (home : string) (s' : S) :
  answers (session w) (echo_cmd (getent_cmd "alice")) (home ++ "-" ++ nl) s' ->
  expand_home_directory "~alice/data" w =
    (match home with
     | EmptyString =>
         Throw (runtime_error
                  "user alice does not exist or does not have a home defined")
     | _ => Ok (home ++ "/data")
     end, sent w (echo_cmd (getent_cmd "alice")) s').
Proof.
  intros Hans.
  unfold expand_home_directory.
  compute_term (Ascii.eqb "~" (Std.char_at "~alice/data" 0)).
  compute_term (1 =? Std.size "~alice/data")%N.
  compute_term (Std.find "~alice/data" "/" 1%N).
  compute_term (1 =? 6)%N.
  compute_term (Std.substr "~alice/data" 1%N (Std.size_sub 6%N 1%N)).
  compute_term
    (Std.substr "~alice/data" 6%N (Std.size_sub (Std.size "~alice/data") 1%N)).
  cbv beta iota zeta delta [bind or_out_of_range ret].
  rewrite (run_string_cmd_sentinel _ _ home nl s' eq_refl Hans).
  destruct home; reflexivity.
Qed.

Lemma expand_home_directory_alice_data_witness :
  let known := Scripted.world
    [(echo_cmd (getent_cmd "alice"),
      mkProcess 0 ("/home/alice" ++ "-" ++ nl) EmptyString)] in
  let unknown := Scripted.world
    [(echo_cmd (getent_cmd "alice"),
      mkProcess 0 (EmptyString ++ "-" ++ nl) EmptyString)] in
  fst (expand_home_directory "~alice/data" known) = Ok "/home/alice/data"
  /\ fst (expand_home_directory "~alice/data" unknown)
     = Throw (runtime_error
                "user alice does not exist or does not have a home defined").
Proof.
  intros known unknown. split.
  - rewrite (expand_home_directory_alice_data known "/home/alice"
               (session known)); [reflexivity | repeat split].
  - rewrite (expand_home_directory_alice_data unknown EmptyString
               (session unknown)); [reflexivity | repeat split].
Defined.

Lemma find_from_absent (c : ascii) (s : string) (i : Std.size_type) :
  occurs c s = false -> Std.find_from c s i = Std.npos.
Proof.
  revert i. induction s as [|a s IH]; intros i Hs; simpl in *.
  - reflexivity.
  - apply orb_false_elim in Hs as [Ha Hs]. rewrite Ha. now apply IH.
Qed.

Lemma substring_all (s : string) :
  String.substring 0 (String.length s) s = s.
Proof. induction s as [|a s IH]; simpl; [reflexivity | now rewrite IH]. Qed.

(** C10: for a target ["~user"] with no slash after the user name, and a
    lookup that gives a non-empty home directory, no path comes back: the
    slash search gives [npos], and the last [substr], taken at that
    position, throws [std::out_of_range]. *)
Theorem expand_home_directory_user_without_slash {S : Type} `{SSHSession S}
    (user home : string) (w : World S) (s' : S) :
  user <> EmptyString ->
  occurs "/"%char user = false ->
  (Std.size (String "~"%char user) < Std.npos)%N ->
  home <> EmptyString ->
  answers (session w) (echo_cmd (getent_cmd user)) (home ++ "-" ++ nl) s' ->
  Std.find (String "~"%char user) "/"%char 1%N = Std.npos
  /\ expand_home_directory (String "~"%char user) w =
       (Throw (out_of_range "basic_string::substr"),
        sent w (echo_cmd (getent_cmd user)) s').
Proof.
  intros Huser Hslash Hsize Hhome Hans.
  assert (Hfind : Std.find (String "~"%char user) "/"%char 1%N = Std.npos).
  { unfold Std.find.
    replace (Std.size (String "~"%char user) <? 1)%N with false
      by (symmetry; apply N.ltb_ge; unfold Std.size; simpl; lia).
    simpl. now apply find_from_absent. }
  split; [exact Hfind |].
  unfold expand_home_directory.
  change (Ascii.eqb "~" (Std.char_at (String "~" user) 0)) with true.
  cbv beta iota zeta.
  replace (1 =? Std.size (String "~"%char user))%N with false
    by (symmetry; apply N.eqb_neq; unfold Std.size; destruct user;
        [congruence | simpl; lia]).
  rewrite Hfind.
  change (1 =? Std.npos)%N with false. cbv beta iota.
  assert (Hname : Std.substr (String "~"%char user) 1%N
                    (Std.size_sub Std.npos 1%N) = Some user).
  { unfold Std.substr.
    replace (Std.size (String "~"%char user) <? 1)%N with false
      by (symmetry; apply N.ltb_ge; unfold Std.size; simpl; lia).
    f_equal.
    replace (N.min (Std.size_sub Std.npos 1%N)
               (Std.size (String "~"%char user) - 1))%N
      with (N.of_nat (String.length user)).
    - rewrite Nat2N.id. simpl. apply substring_all.
    - change (Std.size_sub Std.npos 1%N) with (Std.npos - 1)%N.
      unfold Std.size in *. simpl String.length in *. lia. }
  assert (Hrest : Std.substr (String "~"%char user) Std.npos
                    (Std.size_sub (Std.size (String "~"%char user)) 1%N)
                  = None).
  { unfold Std.substr.
    apply N.ltb_lt in Hsize. now rewrite Hsize. }
  rewrite Hname, Hrest.
  cbv beta iota zeta delta [bind or_out_of_range ret throw].
  rewrite (run_string_cmd_sentinel _ _ home nl s' eq_refl Hans).
  replace (0 =? Std.size home)%N with false
    by (symmetry; apply N.eqb_neq; unfold Std.size; destruct home;
        [congruence | simpl; lia]).
  reflexivity.
Qed.

Lemma expand_home_directory_user_without_slash_witness :
  let w := Scripted.world
    [(echo_cmd (getent_cmd "alice"),
      mkProcess 0 ("/home/alice" ++ "-" ++ nl) EmptyString)] in
  expand_home_directory "~alice" w =
    (Throw (out_of_range "basic_string::substr"),
     sent w (echo_cmd (getent_cmd "alice")) (session w)).
Proof.
  intros w.
  refine (proj2 (expand_home_directory_user_without_slash "alice"
                   "/home/alice" w (session w) _ _ _ _ _)).
  - discriminate.
  - reflexivity.
  - reflexivity.
  - discriminate.
  - repeat split.
Defined.

(** ** The mount handle *)

Section MountFacts.

Context {S : Type} `{SSHSession S}.

Lemma worker_step_before_stop (eof : bool) (m : SshfsMount S) :
  before_stop m -> before_stop (worker_step eof m).
Proof.
  intros (Hs & Hj & Ht). unfold worker_step, before_stop.
  destruct (worker (sftp_thread m)); simpl; auto.
  destruct (SftpServer_run_returns m eof); simpl; auto.
Qed.

Lemma worker_steps_before_stop (eofs : list bool) (m : SshfsMount S) :
  before_stop m -> before_stop (worker_steps eofs m).
Proof.
  revert m. induction eofs as [|eof eofs IH]; intros m Hm; simpl.
  - exact Hm.
  - apply IH. now apply worker_step_before_stop.
Qed.

(** Once the server was asked to stop, two steps of the worker are enough
    for it to finish; waiting for it does not touch the count of threads. *)
Lemma thread_wait_stopping (e1 e2 : bool) (eofs : list bool)
    (m : SshfsMount S) :
  stop_invoked m = true ->
  exists m',
    thread_wait (e1 :: e2 :: eofs) m = Returned m'
    /\ worker (sftp_thread m') = Finished
    /\ joinable (sftp_thread m') = false
    /\ stop_invoked m' = true
    /\ threads_started m' = threads_started m.
Proof.
  intros Hstop.
  destruct m as [srv st [wk jn] out n]. simpl in Hstop. subst st.
  destruct wk; simpl; unfold worker_step; simpl;
    destruct eofs; simpl;
    eexists; (split; [reflexivity |]); simpl; auto.
Qed.

(** What the worker has printed tells where it stands. *)
Lemma worker_step_cout (eof : bool) (m : SshfsMount S) :
  cout m = match worker (sftp_thread m) with
           | Starting => []
           | Serving => ["Connected"]
           | Finished => ["Connected"; "Stopped"]
           end ->
  cout (worker_step eof m)
  = match worker (sftp_thread (worker_step eof m)) with
    | Starting => []
    | Serving => ["Connected"]
    | Finished => ["Connected"; "Stopped"]
    end.
Proof.
  unfold worker_step. destruct (worker (sftp_thread m)) eqn:Ew; simpl.
  - now intros ->.
  - destruct (SftpServer_run_returns m eof); simpl.
    + now intros ->.
    + now rewrite Ew.
  - now rewrite Ew.
Qed.

Lemma worker_steps_cout (eofs : list bool) (m : SshfsMount S) :
  cout m = match worker (sftp_thread m) with
           | Starting => []
           | Serving => ["Connected"]
           | Finished => ["Connected"; "Stopped"]
           end ->
  cout (worker_steps eofs m)
  = match worker (sftp_thread (worker_steps eofs m)) with
    | Starting => []
    | Serving => ["Connected"]
    | Finished => ["Connected"; "Stopped"]
    end.
Proof.
  revert m. induction eofs as [|eof eofs IH]; intros m Hm; simpl.
  - exact Hm.
  - apply IH. now apply worker_step_cout.
Qed.

Lemma thread_wait_cout (eofs : list bool) (m m' : SshfsMount S) :
  cout m = match worker (sftp_thread m) with
           | Starting => []
           | Serving => ["Connected"]
           | Finished => ["Connected"; "Stopped"]
           end ->
  thread_wait eofs m = Returned m' ->
  cout m' = ["Connected"; "Stopped"] /\ sftp_server m' = sftp_server m.
Proof.
  revert m. induction eofs as [|eof eofs IH]; intros m Hm.
  - simpl. destruct (worker (sftp_thread m)) eqn:Ew; try discriminate.
    intros [= <-]. simpl. now split.
  - simpl. destruct (worker (sftp_thread m)) eqn:Ew.
    + intros Hj. destruct (IH _ (worker_step_cout eof m
                                   ltac:(now rewrite Ew)) Hj) as (Hc & Hs).
      split; [exact Hc |]. rewrite Hs. unfold worker_step. now rewrite Ew.
    + intros Hj. destruct (IH _ (worker_step_cout eof m
                                   ltac:(now rewrite Ew)) Hj) as (Hc & Hs).
      split; [exact Hc |]. rewrite Hs. unfold worker_step. rewrite Ew.
      now destruct (SftpServer_run_returns m eof).
    + intros [= <-]. simpl. now split.
Qed.

Lemma thread_wait_finished (eofs : list bool) (m m' : SshfsMount S) :
  thread_wait eofs m = Returned m' -> worker (sftp_thread m') = Finished.
Proof.
  revert m. induction eofs as [|e l IH]; intros m; simpl;
    destruct (worker (sftp_thread m)); try discriminate;
    try (intros [= <-]; reflexivity); apply IH.
Qed.

End MountFacts.

(** C9: on a handle as its constructor leaves it, however far the worker
    has got meanwhile, [stop()] returns once the worker has taken two more
    steps at most, and so does the destructor when it is what stops the
    handle; no exception leaves either.  After [stop()] a second [stop()],
    or the destructor, returns at once and changes nothing: the thread is
    not joinable any more, and it is the test of [joinable()] that keeps
    the second call from [join()], which would throw [std::system_error]
    there.  Afterwards the worker is not running.  The handle has had one
    thread in all, and its body has run once: [Connected] was printed at
    most once at any time before, and once when [stop()] has returned. *)
Theorem stop_twice {S : Type} `{SSHSession S} (server : SftpServer (S := S))
    (before : list bool) (e1 e2 : bool) (eofs : list bool) :
  let m := worker_steps before (started server) in
  count_occ string_dec (cout m) "Connected" <= 1
  /\ exists m1,
       stop (e1 :: e2 :: eofs) m = Returned m1
       /\ destroy (e1 :: e2 :: eofs) m = Returned m1
       /\ stop [] m1 = Returned m1
       /\ destroy [] m1 = Returned m1
       /\ thread_join [] m1 = Raised (system_error "Invalid argument")
       /\ worker_running m1 = false
       /\ joinable (sftp_thread m1) = false
       /\ threads_started m1 = 1
       /\ count_occ string_dec (cout m1) "Connected" = 1.
Proof.
  intros m.
  assert (Hm : before_stop m).
  { apply worker_steps_before_stop. repeat split. }
  destruct Hm as (_ & Hj & Ht).
  assert (Hc : cout m = match worker (sftp_thread m) with
                        | Starting => []
                        | Serving => ["Connected"]
                        | Finished => ["Connected"; "Stopped"]
                        end)
    by (apply worker_steps_cout; reflexivity).
  split.
  { rewrite Hc. destruct (worker (sftp_thread m)); simpl; lia. }
  assert (Hstop : stop (e1 :: e2 :: eofs) m
                  = thread_wait (e1 :: e2 :: eofs) (SftpServer_stop m)).
  { unfold stop, thread_join. cbv zeta.
    change (joinable (sftp_thread (SftpServer_stop m)))
      with (joinable (sftp_thread m)).
    now rewrite Hj. }
  destruct (thread_wait_stopping e1 e2 eofs (SftpServer_stop m) eq_refl)
    as (m1 & Hjoin & Hw & Hj1 & Hs1 & Ht1).
  destruct (thread_wait_cout _ (SftpServer_stop m) m1 Hc Hjoin) as (Hout & _).
  exists m1.
  assert (Hfirst : stop (e1 :: e2 :: eofs) m = Returned m1)
    by (now rewrite Hstop).
  assert (Hagain : stop [] m1 = Returned m1).
  { unfold stop. cbv zeta.
    change (joinable (sftp_thread (SftpServer_stop m1)))
      with (joinable (sftp_thread m1)).
    rewrite Hj1.
    destruct m1 as [srv st th out n]. simpl in *. now subst st. }
  repeat split.
  - exact Hfirst.
  - unfold destroy. now rewrite Hfirst, Hj1.
  - exact Hagain.
  - unfold destroy. now rewrite Hagain, Hj1.
  - unfold thread_join. now rewrite Hj1.
  - unfold worker_running. now rewrite Hw.
  - exact Hj1.
  - rewrite Ht1. exact Ht.
  - rewrite Hout. reflexivity.
Qed.

(** ** QDir: segments *)

Module QDirFacts.

Import QDir Clean.

Lemma split_not_nil (s : string) : split s <> [].
Proof.
  induction s as [|c s IH]; simpl; [discriminate |].
  destruct (Ascii.eqb c slash); [discriminate |].
  destruct (split s); discriminate.
Qed.

Lemma split_app_slash (a b : string) :
  split (a ++ String slash b) = (split a ++ split b)%list.
Proof.
  induction a as [|c a IH]; simpl.
  - reflexivity.
  - rewrite IH. destruct (Ascii.eqb c slash); [reflexivity |].
    pose proof (split_not_nil a) as Ha.
    destruct (split a); [congruence | reflexivity].
Qed.

Lemma split_no_slash (s : string) :
  occurs slash s = false -> split s = [s].
Proof.
  induction s as [|c s IH]; simpl; intros Hs; [reflexivity |].
  apply orb_false_elim in Hs as [Hc Hs].
  rewrite Hc, (IH Hs). reflexivity.
Qed.

Lemma split_parts_no_slash (s : string) :
  Forall (fun x => occurs slash x = false) (split s).
Proof.
  induction s as [|c s IH]; simpl.
  - constructor; [reflexivity | constructor].
  - destruct (Ascii.eqb c slash) eqn:Ec.
    + constructor; [reflexivity | exact IH].
    + destruct (split s) as [|h t]; inversion IH; subst.
      * constructor; [simpl; now rewrite Ec | constructor].
      * constructor; [simpl; now rewrite Ec | assumption].
Qed.

Lemma split_skip_empty_segments (s : string) :
  Forall segment (split_skip_empty s).
Proof.
  unfold split_skip_empty.
  pose proof (split_parts_no_slash s) as Hs.
  induction Hs as [|x l Hx Hl IH]; simpl; [constructor |].
  destruct (nonempty x) eqn:Ex; [| exact IH].
  constructor; [split; assumption | exact IH].
Qed.

Lemma split_skip_empty_app_slash (a b : string) :
  split_skip_empty (a ++ String slash b)
  = (split_skip_empty a ++ split_skip_empty b)%list.
Proof.
  unfold split_skip_empty. rewrite split_app_slash. apply filter_app.
Qed.

Lemma split_skip_empty_segment (x : string) :
  segment x -> split_skip_empty x = [x].
Proof.
  intros [Hne Hns]. unfold split_skip_empty.
  rewrite (split_no_slash x Hns). simpl. now rewrite Hne.
Qed.

Lemma split_skip_empty_join (l : list string) :
  Forall segment l -> split_skip_empty (join l) = l.
Proof.
  induction 1 as [|x l Hx Hl IH]; [reflexivity |].
  destruct l as [|y r].
  - simpl. now apply split_skip_empty_segment.
  - change (join (x :: y :: r)) with (x ++ String slash (join (y :: r))).
    rewrite split_skip_empty_app_slash, IH.
    now rewrite (split_skip_empty_segment x Hx).
Qed.

Lemma split_skip_empty_rooted (l : list string) :
  Forall segment l -> split_skip_empty ("/" ++ join l) = l.
Proof.
  intros Hl.
  change ("/" ++ join l) with (EmptyString ++ String slash (join l)).
  rewrite split_skip_empty_app_slash. now rewrite split_skip_empty_join.
Qed.

Lemma join_empty (l : list string) :
  Forall segment l -> join l = EmptyString -> l = [].
Proof.
  intros Hl Hj. destruct Hl as [|x l [Hx _] Hl]; [reflexivity |].
  destruct x; [discriminate |]. destruct l; discriminate.
Qed.

(** *** Cleaned segments *)

Lemma push_segment_normal (s : list string) (seg : string) :
  normal s -> normal (push_segment s seg).
Proof.
  intros Hs. unfold push_segment.
  destruct (String.eqb_spec seg "."); [exact Hs |].
  destruct (String.eqb_spec seg "..") as [-> |Hdd].
  - destruct s as [|top rest]; simpl.
    + repeat split; [discriminate | constructor].
    + destruct (String.eqb_spec top "..") as [-> |Htop].
      * destruct Hs as (_ & Hall & Hrest).
        repeat split; try discriminate; try assumption.
        constructor; [reflexivity | now apply Hall].
      * apply Hs.
  - simpl. repeat split; [assumption | congruence | assumption].
Qed.

Lemma fold_push_normal (l s : list string) :
  normal s -> normal (fold_left push_segment l s).
Proof.
  revert s. induction l as [|x l IH]; intros s Hs; simpl; [exact Hs |].
  apply IH. now apply push_segment_normal.
Qed.

(** On a normal stack, one of its own segments is just put on top. *)
Lemma push_segment_kept (s : list string) (x : string) :
  normal (x :: s) -> push_segment s x = x :: s.
Proof.
  intros (Hdot & Hdd & _). unfold push_segment.
  destruct (String.eqb_spec x "."); [contradiction |].
  destruct (String.eqb_spec x "..") as [-> |]; [| reflexivity].
  destruct s as [|top rest]; [reflexivity |].
  specialize (Hdd eq_refl). inversion Hdd; subst. reflexivity.
Qed.

Lemma normal_app_r (s1 s2 : list string) : normal (s1 ++ s2) -> normal s2.
Proof.
  induction s1 as [|x s1 IH]; simpl; [auto |].
  intros (_ & _ & Hr). now apply IH.
Qed.

(** Pushing the rest of a cleaned list on its beginning gives the list. *)
Lemma fold_push_rest (G C : list string) :
  normal (rev (C ++ G)) ->
  fold_left push_segment G (rev C) = rev (C ++ G).
Proof.
  revert C. induction G as [|g G IH]; intros C Hn; simpl.
  - now rewrite app_nil_r.
  - assert (Hg : normal (g :: rev C)).
    { apply (normal_app_r (rev G)).
      rewrite rev_app_distr in Hn. simpl in Hn.
      now rewrite <- app_assoc in Hn. }
    rewrite (push_segment_kept _ _ Hg).
    change (g :: rev C) with (rev [g] ++ rev C)%list.
    rewrite <- rev_app_distr.
    replace (C ++ g :: G)%list with ((C ++ [g]) ++ G)%list
      by (now rewrite <- app_assoc).
    apply IH. now rewrite <- app_assoc.
Qed.

Lemma stack_of_rev (s : list string) : normal s -> stack_of (rev s) = s.
Proof.
  intros Hs. unfold stack_of.
  pose proof (fold_push_rest (rev s) []) as E. simpl in E.
  rewrite rev_involutive in E. now apply E.
Qed.

Lemma stack_of_normal (l : list string) : normal (stack_of l).
Proof. apply fold_push_normal. exact I. Qed.

Lemma push_segment_segments (s : list string) (x : string) :
  Forall segment s -> segment x -> Forall segment (push_segment s x).
Proof.
  intros Hs Hx. unfold push_segment.
  destruct (String.eqb x "."); [exact Hs |].
  destruct (String.eqb x "..").
  - destruct s as [|top rest]; [now constructor |].
    destruct (String.eqb top ".."); [now constructor | now inversion Hs].
  - now constructor.
Qed.

Lemma fold_push_segments (l s : list string) :
  Forall segment s -> Forall segment l ->
  Forall segment (fold_left push_segment l s).
Proof.
  revert s. induction l as [|x l IH]; intros s Hs Hl; simpl; [exact Hs |].
  inversion Hl; subst. apply IH; [| assumption].
  now apply push_segment_segments.
Qed.

Lemma clean_elts_segments (p : string) : Forall segment (clean_elts p).
Proof.
  unfold clean_elts. apply Forall_rev.
  apply fold_push_segments; [constructor |].
  apply split_skip_empty_segments.
Qed.

(** Cleaning the segments of a cleaned absolute path changes nothing. *)
Lemma clean_elts_rooted (p : string) :
  clean_elts ("/" ++ join (clean_elts p)) = clean_elts p.
Proof.
  unfold clean_elts at 1.
  rewrite split_skip_empty_rooted by apply clean_elts_segments.
  unfold clean_elts.
  fold (stack_of (split_skip_empty p)).
  fold (stack_of (rev (stack_of (split_skip_empty p)))).
  now rewrite stack_of_rev by apply stack_of_normal.
Qed.

Lemma cleanPath_absolute (p : string) :
  starts_with_slash p = true -> cleanPath p = "/" ++ join (clean_elts p).
Proof.
  intros Hp. unfold cleanPath. destruct p; [discriminate |].
  now rewrite Hp.
Qed.

Lemma cleanPath_idempotent (p : string) :
  starts_with_slash p = true -> cleanPath (cleanPath p) = cleanPath p.
Proof.
  intros Hp. rewrite (cleanPath_absolute p Hp).
  rewrite cleanPath_absolute by reflexivity.
  now rewrite clean_elts_rooted.
Qed.

(** *** The relative path, put back on the directory *)

Local Open Scope list_scope.

Lemma normal_decompose (s : list string) :
  normal s ->
  exists t b, s = (t ++ b)%list /\ all_dotdot b
              /\ Forall (fun x => x <> "..") t.
Proof.
  induction s as [|x s IH]; intros Hs.
  - exists [], []. repeat split; constructor.
  - destruct Hs as (_ & Hdd & Hr).
    destruct (String.eqb_spec x "..") as [-> |Hx].
    + exists [], (".." :: s). repeat split; [| constructor].
      constructor; [reflexivity | now apply Hdd].
    + destruct (IH Hr) as (t & b & -> & Hb & Ht).
      exists (x :: t), b. repeat split; [assumption | now constructor].
Qed.

(** The [..] at the bottom of the stack stay there. *)
Lemma bottom_kept (b : list string) :
  all_dotdot b ->
  forall Y t, exists t',
    fold_left push_segment Y (t ++ b)%list = (t' ++ b)%list.
Proof.
  intros Hb. induction Y as [|y Y IH]; intros t; simpl.
  - now exists t.
  - unfold push_segment at 2.
    destruct (String.eqb y "."); [apply IH |].
    destruct (String.eqb y "..") eqn:Ey.
    + apply String.eqb_eq in Ey. subst y.
      destruct t as [|top t]; simpl.
      * destruct b as [|top b].
        -- apply (IH [".."]).
        -- inversion Hb; subst. simpl. apply (IH [".."]).
      * destruct (String.eqb top "..").
        -- apply (IH (".." :: top :: t)).
        -- apply IH.
    + apply (IH (y :: t)).
Qed.

Lemma common_prefix_app (l A B : list string) :
  common_prefix (l ++ A) (l ++ B) = (List.length l + common_prefix A B)%nat.
Proof.
  induction l as [|x l IH]; simpl; [reflexivity |].
  now rewrite String.eqb_refl, IH.
Qed.

Lemma common_prefix_refl (l : list string) :
  common_prefix l l = List.length l.
Proof.
  induction l as [|x l IH]; simpl; [reflexivity |].
  now rewrite String.eqb_refl, IH.
Qed.

Lemma common_prefix_firstn (A B : list string) :
  firstn (common_prefix A B) A = firstn (common_prefix A B) B.
Proof.
  revert B. induction A as [|x A IH]; intros [|y B]; simpl; try reflexivity.
  destruct (String.eqb_spec x y) as [-> |]; [| reflexivity].
  simpl. now rewrite IH.
Qed.

Lemma repeat_snoc (x : string) (n : nat) :
  repeat x (Datatypes.S n) = (repeat x n ++ [x])%list.
Proof.
  induction n as [|n IH]; [reflexivity |].
  change (repeat x (Datatypes.S (Datatypes.S n)))
    with (x :: repeat x (Datatypes.S n)).
  rewrite IH at 1. reflexivity.
Qed.

(** As many [..] as there are plain segments on top take them all off. *)
Lemma pop_dotdots (D s : list string) :
  Forall (fun x => x <> "..") D ->
  fold_left push_segment (repeat ".." (List.length D)) (rev D ++ s) = s.
Proof.
  revert s. induction D as [|x D IH]; intros s HD; [reflexivity |].
  inversion HD as [|? ? Hx HD']; subst.
  change (List.length (x :: D)) with (Datatypes.S (List.length D)).
  rewrite repeat_snoc, fold_left_app.
  simpl rev. rewrite <- app_assoc. simpl app at 2.
  rewrite (IH (x :: s) HD'). simpl.
  unfold push_segment. simpl.
  apply String.eqb_neq in Hx. now rewrite Hx.
Qed.

Lemma Forall_skipn_plain (n : nat) (l : list string) (P : string -> Prop) :
  Forall P l -> Forall P (skipn n l).
Proof.
  revert l. induction n as [|n IH]; intros [|x l] Hl; simpl; auto.
  inversion Hl; subst. now apply IH.
Qed.

Lemma rejoin_segments (X Y : list string) :
  let s := stack_of X in
  let D := rev s in
  let F := rev (fold_left push_segment Y s) in
  let i := common_prefix D F in
  fold_left push_segment (repeat ".." (List.length D - i) ++ skipn i F) s
  = fold_left push_segment Y s.
Proof.
  intros s D F i.
  assert (Hs : normal s) by apply stack_of_normal.
  assert (HF : normal (rev F)).
  { unfold F. rewrite rev_involutive. now apply fold_push_normal. }
  destruct (normal_decompose s Hs) as (t & b & Es & Hb & Ht).
  destruct (bottom_kept b Hb Y t) as (t' & Et').
  assert (ED : D = (rev b ++ rev t)%list)
    by (unfold D; rewrite Es; apply rev_app_distr).
  assert (EF : F = (rev b ++ rev t')%list)
    by (unfold F; rewrite Es, Et'; apply rev_app_distr).
  set (j := common_prefix (rev t) (rev t')).
  assert (Ei : i = (List.length (rev b) + j)%nat)
    by (unfold i; rewrite ED, EF; apply common_prefix_app).
  assert (Hplain : Forall (fun x => x <> "..") (skipn i D)).
  { rewrite ED, Ei, skipn_app.
    replace (List.length (rev b) + j - List.length (rev b))%nat with j by lia.
    rewrite skipn_all2 by lia. simpl.
    apply Forall_skipn_plain. now apply Forall_rev. }
  assert (Hlen : (List.length D - i)%nat = List.length (skipn i D))
    by (now rewrite length_skipn).
  assert (Hsplit : s = (rev (skipn i D) ++ rev (firstn i D))%list).
  { rewrite <- rev_app_distr, firstn_skipn. unfold D.
    now rewrite rev_involutive. }
  rewrite fold_left_app, Hlen.
  rewrite Hsplit at 1. rewrite (pop_dotdots _ _ Hplain).
  assert (Hfirst : firstn i D = firstn i F)
    by (unfold i; apply common_prefix_firstn).
  rewrite Hfirst.
  rewrite fold_push_rest; rewrite firstn_skipn; [| exact HF].
  unfold F. apply rev_involutive.
Qed.

Local Open Scope string_scope.

Lemma ends_with_slash_snoc (s : string) : ends_with_slash (s ++ "/") = true.
Proof.
  induction s as [|c s IH]; [reflexivity |].
  simpl. destruct s; [reflexivity | exact IH].
Qed.

(** The directory that [QDir] makes of a path with a slash at its end. *)
Lemma new_slash_dir (P : string) :
  dirEntry (new (P ++ "/"))
  = match P with EmptyString => "/" | _ => P end.
Proof.
  destruct P as [|c P]; [reflexivity |].
  change (new (String c P ++ "/"))
    with (mk (if ends_with_slash (String c P ++ "/")
                 && (1 <? String.length (String c P ++ "/"))%nat
              then Std.without_last (String c P ++ "/")
              else String c P ++ "/")).
  rewrite ends_with_slash_snoc.
  replace (1 <? String.length (String c P ++ "/"))%nat with true
    by (symmetry; apply Nat.ltb_lt; rewrite length_append; simpl; lia).
  cbv beta iota delta [andb dirEntry].
  apply (without_last_snoc (String c P) slash).
Qed.

Lemma relativeFilePath_elts (current_path d a : string) :
  starts_with_slash d = true -> starts_with_slash a = true ->
  relativeFilePath current_path (mk d) a
  = let D := clean_elts d in
    let F := clean_elts a in
    let i := common_prefix D F in
    or_dot (dotdots (List.length D - i) ++ join (skipn i F)).
Proof.
  intros Hd Ha.
  unfold relativeFilePath, absolutePath, isRelative, isRelativePath.
  simpl dirEntry. rewrite Hd. simpl negb. cbv iota.
  rewrite (cleanPath_idempotent d Hd).
  rewrite (cleanPath_absolute d Hd), (cleanPath_absolute a Ha).
  simpl starts_with_slash. simpl negb. simpl orb. cbv iota.
  rewrite !split_skip_empty_rooted by apply clean_elts_segments.
  reflexivity.
Qed.

Lemma split_skip_empty_dotdots (k : nat) (x : string) :
  split_skip_empty (dotdots k ++ x)
  = (repeat ".." k ++ split_skip_empty x)%list.
Proof.
  induction k as [|k IH]; [reflexivity |].
  change (dotdots (Datatypes.S k) ++ x)
    with (".." ++ String slash (dotdots k ++ x)).
  rewrite split_skip_empty_app_slash, IH. reflexivity.
Qed.

(** The segments of what [relativeFilePath] returns, as [cleanPath] sees
    them: as many [..] as were counted, then the rest of the file's. *)
Lemma relative_segments (k : nat) (G s : list string) :
  Forall segment G ->
  fold_left push_segment
    (split_skip_empty (or_dot (dotdots k ++ join G))) s
  = fold_left push_segment (repeat ".." k ++ G)%list s.
Proof.
  intros HG. destruct (dotdots k ++ join G) eqn:E.
  - destruct k; [| discriminate]. simpl in E.
    rewrite (join_empty G HG E). reflexivity.
  - unfold or_dot. rewrite <- E, split_skip_empty_dotdots.
    now rewrite split_skip_empty_join.
Qed.

(** The relative path, put after the directory it was taken from, names
    the file again. *)
Lemma rejoin (current_path a P : string) :
  starts_with_slash a = true ->
  (a = P \/ exists t, a = P ++ String slash t) ->
  cleanPath ((P ++ "/") ++ relativeFilePath current_path (new (P ++ "/")) a)
  = cleanPath a.
Proof.
  intros Ha HP.
  assert (HPs : P = EmptyString \/ starts_with_slash P = true).
  { destruct P; [now left | right].
    destruct HP as [<- | [t ->]]; exact Ha. }
  set (d := dirEntry (new (P ++ "/"))).
  assert (Hd : starts_with_slash d = true
               /\ split_skip_empty d = split_skip_empty P).
  { unfold d. rewrite new_slash_dir.
    destruct HPs as [-> | HPs]; [split; reflexivity |].
    destruct P; [discriminate | split; [exact HPs | reflexivity]]. }
  destruct Hd as [Hd Ed].
  assert (HY : exists Y,
             split_skip_empty a = (split_skip_empty P ++ Y)%list).
  { destruct HP as [<- | [t ->]].
    - exists []. now rewrite app_nil_r.
    - exists (split_skip_empty t). apply split_skip_empty_app_slash. }
  destruct HY as [Y HY].
  change (new (P ++ "/")) with (mk d).
  rewrite (relativeFilePath_elts current_path d a Hd Ha). cbv zeta.
  rewrite (cleanPath_absolute a Ha).
  rewrite cleanPath_absolute
    by (destruct HPs as [-> | HPs]; [reflexivity |];
        destruct P; [discriminate | exact HPs]).
  f_equal. f_equal.
  rewrite append_assoc.
  change ("/" ++ ?m) with (String slash m).
  unfold clean_elts at 1.
  rewrite split_skip_empty_app_slash, fold_left_app.
  rewrite relative_segments
    by (apply Forall_skipn_plain, clean_elts_segments).
  unfold clean_elts. rewrite Ed, HY.
  rewrite (fold_left_app push_segment (split_skip_empty P) Y). f_equal.
  exact (rejoin_segments (split_skip_empty P) Y).
Qed.

(** The relative path is never the empty string. *)
Lemma relativeFilePath_not_empty (current_path a P : string) :
  starts_with_slash a = true ->
  (a = P \/ exists t, a = P ++ String slash t) ->
  relativeFilePath current_path (new (P ++ "/")) a <> EmptyString.
Proof.
  intros Ha HP.
  assert (HPs : P = EmptyString \/ starts_with_slash P = true).
  { destruct P; [now left | right].
    destruct HP as [<- | [t ->]]; exact Ha. }
  set (d := dirEntry (new (P ++ "/"))).
  assert (Hd : starts_with_slash d = true).
  { unfold d. rewrite new_slash_dir.
    destruct HPs as [-> | HPs]; [reflexivity |].
    destruct P; [discriminate | exact HPs]. }
  change (new (P ++ "/")) with (mk d).
  rewrite (relativeFilePath_elts current_path d a Hd Ha). cbv zeta.
  unfold or_dot.
  destruct (dotdots _ ++ join _); discriminate.
Qed.

(** The directory itself is spelt [.]. *)
Lemma relativeFilePath_same (current_path a : string) :
  starts_with_slash a = true ->
  relativeFilePath current_path (new (a ++ "/")) a = ".".
Proof.
  intros Ha.
  assert (Ed : new (a ++ "/") = mk a).
  { change (new (a ++ "/")) with (mk (dirEntry (new (a ++ "/")))).
    rewrite new_slash_dir. destruct a; [discriminate | reflexivity]. }
  rewrite Ed, (relativeFilePath_elts current_path a a Ha Ha). cbv zeta.
  rewrite common_prefix_refl, Nat.sub_diag, skipn_all. reflexivity.
Qed.

End QDirFacts.

(** ** The search for the deepest existing directory *)

Module BashFacts.

Import Bash.

Lemma chop_spec (P P' : string) :
  chop P = Some P' ->
  (exists t, P = P' ++ String "/"%char t)
  /\ (String.length P' < String.length P)%nat.
Proof.
  revert P'. induction P as [|c P IH]; intros P' HP; simpl in HP.
  - discriminate.
  - destruct (chop P) as [r|] eqn:E.
    + injection HP as <-. destruct (IH r eq_refl) as ((t & ->) & Hlen).
      split; [now exists t | simpl; lia].
    + destruct (Ascii.eqb_spec c "/"%char) as [-> |]; [| discriminate].
      injection HP as <-. split; [now exists P | simpl; lia].
Qed.

Lemma chop_rooted (P : string) :
  QDir.starts_with_slash P = true -> chop P <> None.
Proof.
  destruct P as [|c P]; [discriminate |]. simpl. intros Hc.
  destruct (chop P); [discriminate |].
  unfold QDir.slash in Hc. now rewrite Hc.
Qed.

(** On a host whose root exists the loop ends, on an absolute path, with a
    directory that is the path or lies above it. *)
Lemma existing_dir_loop_ends (test_d : string -> bool) (fuel : nat)
    (P : string) :
  test_d "/" = true ->
  P = EmptyString \/ QDir.starts_with_slash P = true ->
  (String.length P < fuel)%nat ->
  exists P',
    existing_dir_loop test_d fuel P = Some P'
    /\ (P = P' \/ exists t, P = P' ++ String "/"%char t)
    /\ test_d (P' ++ "/") = true.
Proof.
  intros Hroot. revert P.
  induction fuel as [|fuel IH]; intros P HP Hlen; [lia |].
  simpl. destruct (test_d (P ++ "/")) eqn:Etest.
  - exists P. auto.
  - destruct HP as [-> | HP]; [simpl in Etest; congruence |].
    unfold strip_last.
    destruct (chop P) as [P1|] eqn:Echop; [| now apply chop_rooted in HP].
    destruct (chop_spec P P1 Echop) as ((t & EP) & Hlt).
    assert (HP1 : P1 = EmptyString \/ QDir.starts_with_slash P1 = true).
    { destruct P1; [now left | right]. rewrite EP in HP. exact HP. }
    destruct (IH P1 HP1 ltac:(lia)) as (P' & Hloop & Hrel & Htest).
    exists P'. repeat split; [exact Hloop | | exact Htest].
    right. destruct Hrel as [<- | (t' & EP1)]; [now exists t |].
    exists (t' ++ String "/"%char t).
    rewrite EP, EP1, append_assoc. reflexivity.
Qed.

Lemma existing_dir_ends (test_d : string -> bool) (P : string) :
  test_d "/" = true ->
  QDir.starts_with_slash P = true ->
  exists P',
    existing_dir test_d P = Some P'
    /\ (P = P' \/ exists t, P = P' ++ String "/"%char t)
    /\ test_d (P' ++ "/") = true.
Proof.
  intros Hroot HP. unfold existing_dir.
  apply existing_dir_loop_ends; [assumption | now right | lia].
Qed.

(** A path that exists is found at once. *)
Lemma existing_dir_found (test_d : string -> bool) (P : string) :
  test_d (P ++ "/") = true -> existing_dir test_d P = Some P.
Proof. intros HP. unfold existing_dir. simpl. now rewrite HP. Qed.

Lemma literal_app (a b : string) :
  literal (a ++ b) = literal a && literal b.
Proof.
  induction a as [|c a IH]; simpl; [reflexivity |].
  now rewrite IH, andb_assoc.
Qed.

Lemma fields_literal (s : string) : literal s = true -> fields s = [s].
Proof.
  induction s as [|c s IH]; simpl; [reflexivity |].
  intros Hs. apply andb_true_iff in Hs. destruct Hs as (Hc & Hs).
  apply negb_true_iff in Hc. apply orb_false_iff in Hc.
  destruct Hc as (Hc & _). apply orb_false_iff in Hc. destruct Hc as (_ & Hc).
  now rewrite Hc, (IH Hs).
Qed.

(** The shell prints a literal value as it stands. *)
Lemma unquoted_literal (s : string) : literal s = true -> unquoted s = s.
Proof.
  intros Hs. unfold unquoted, words. rewrite (fields_literal s Hs).
  destruct s; reflexivity.
Qed.

(** So it does for the directories above a literal path. *)
Lemma unquoted_above (a P : string) :
  literal a = true ->
  (a = P \/ exists t, a = P ++ String "/"%char t) ->
  unquoted (P ++ "/") = P ++ "/".
Proof.
  intros Ha HP. apply unquoted_literal. rewrite literal_app.
  destruct HP as [<- | (t & ->)].
  - now rewrite Ha.
  - rewrite literal_app in Ha. apply andb_true_iff in Ha. now rewrite (proj1 Ha).
Qed.

End BashFacts.

(** ** get_path_split *)

Section PathSplit.

Context {S : Type} `{SSHSession S}.
Variable test_d : string -> bool.
Variables cwd current_path : string.

Lemma absolute_target_rooted (target : string) :
  QDir.starts_with_slash cwd = true ->
  QDir.starts_with_slash (absolute_target cwd target) = true.
Proof.
  intros Hcwd. unfold absolute_target. cbv zeta.
  destruct (QDir.isRelative (QDir.new target)) eqn:E.
  - destruct cwd; [discriminate | exact Hcwd].
  - unfold QDir.isRelative, QDir.isRelativePath in E.
    now apply negb_false_iff in E.
Qed.

(** What [get_path_split] returns once the host has answered. *)
Lemma get_path_split_answered (target : string) (w : World S) (s' : S)
    (P : string) :
  host_answers_split test_d cwd (session w) target s' ->
  Bash.existing_dir test_d (absolute_target cwd target) = Some P ->
  exists w',
    get_path_split current_path target w =
      (Ok (Bash.unquoted (P ++ "/"),
           QDir.relativeFilePath current_path
             (QDir.new (Bash.unquoted (P ++ "/")))
             (absolute_target cwd target)), w')
    /\ session w' = s' /\ log w' = log w
    /\ (QDir.isRelative (QDir.new target) = false ->
        w' = sent w
               (echo_cmd (existing_dir_cmd (absolute_target cwd target))) s').
Proof.
  intros (s1 & Hpwd & Hprobe) HP.
  specialize (Hprobe P HP).
  unfold get_path_split, absolute_target in *. cbv zeta in *.
  destruct (QDir.isRelative (QDir.new target)) eqn:Erel.
  - unfold bind at 1 2.
    rewrite (run_string_cmd_sentinel _ w cwd nl s1 eq_refl Hpwd).
    unfold ret at 1. unfold bind.
    rewrite (run_string_cmd_sentinel _ (sent w (echo_cmd "pwd") s1)
               (Bash.unquoted (P ++ "/")) nl s' eq_refl Hprobe).
    eexists. split; [reflexivity |]. repeat split. discriminate.
  - subst s1. unfold bind at 1. unfold ret at 1. unfold bind.
    rewrite (run_string_cmd_sentinel _ w (Bash.unquoted (P ++ "/")) nl s'
               eq_refl Hprobe).
    eexists. split; [reflexivity |]. repeat split.
Qed.

End PathSplit.

(** C1, as stated, fails, in three ways.  A double quote in the target
    ends the string of [P="..."] early: what the host is sent is not the
    script, nothing is printed before the sentinel, and [existing] is
    empty.  A directory whose name holds two spaces is printed by the
    unquoted [echo $P/] with one, and [existing] is no directory of the
    host.  And for a target with a [..] in it, [missing] is taken from the
    cleaned target: [existing] and [missing] joined are not the target
    letter by letter. *)
Lemma get_path_split_invariant_counterexample :
  fst (get_path_split "/" ("/r/a" ++ dq ++ "b") (Remote.world Remote.example))
  = Ok (EmptyString, "r/a" ++ dq ++ "b")
  /\ (Remote.test_d Remote.spaced "/r/x  y/" = true
      /\ fst (get_path_split "/" "/r/x  y/z" (Remote.world Remote.spaced))
         = Ok ("/r/x y/", "../x  y/z")
      /\ Remote.test_d Remote.spaced "/r/x y/" = false)
  /\ (fst (get_path_split "/" "/r/a/../b" (Remote.world Remote.example))
      = Ok ("/r/", "b")
      /\ "/r/" ++ "b" <> "/r/a/../b").
Proof.
  split; [vm_compute; reflexivity |].
  split; [repeat split; vm_compute; reflexivity |].
  split; [vm_compute; reflexivity | discriminate].
Qed.

(** C1 (amended): on a host whose root exists and whose working directory
    is an absolute path, for every target whose absolute path the shell
    takes as it stands (no blank, no quote, [$], backquote or backslash, no
    [*], [?] or [[]), the path split returns a pair [(existing, missing)]
    in which [existing] is not empty, is absolute, ends in a slash and is a
    directory of the host (the root when no other directory exists), and
    in which [missing] put after [existing] names, once cleaned, the
    absolute target; [missing] is never empty. *)
Theorem get_path_split_invariant {S : Type} `{SSHSession S}
    (test_d : string -> bool) (cwd current_path target : string)
    (w : World S) (s' : S) :
  test_d "/" = true ->
  QDir.starts_with_slash cwd = true ->
  Bash.literal (absolute_target cwd target) = true ->
  host_answers_split test_d cwd (session w) target s' ->
  exists existing missing w',
    get_path_split current_path target w = (Ok (existing, missing), w')
    /\ existing <> EmptyString
    /\ QDir.starts_with_slash existing = true
    /\ QDir.ends_with_slash existing = true
    /\ test_d existing = true
    /\ ((forall p, test_d p = true -> p = "/") -> existing = "/")
    /\ QDir.cleanPath (existing ++ missing)
       = QDir.cleanPath (absolute_target cwd target)
    /\ missing <> EmptyString.
Proof.
  intros Hroot Hcwd Hlit Hhost.
  pose proof (absolute_target_rooted cwd target Hcwd) as Habs.
  destruct (BashFacts.existing_dir_ends test_d _ Hroot Habs)
    as (P & HP & Hrel & Htest).
  destruct (get_path_split_answered test_d cwd current_path target w s' P
              Hhost HP) as (w' & Hsplit & _).
  rewrite (BashFacts.unquoted_above _ P Hlit Hrel) in Hsplit.
  exists (P ++ "/"), (QDir.relativeFilePath current_path (QDir.new (P ++ "/"))
                        (absolute_target cwd target)), w'.
  split; [exact Hsplit |].
  assert (HPs : QDir.starts_with_slash (P ++ "/") = true).
  { destruct P as [|c P]; [reflexivity |].
    destruct Hrel as [Et | (t & Et)]; rewrite Et in Habs; exact Habs. }
  repeat split.
  - destruct P; discriminate.
  - exact HPs.
  - apply QDirFacts.ends_with_slash_snoc.
  - exact Htest.
  - intros Honly. now apply Honly.
  - apply QDirFacts.rejoin; [exact Habs | exact Hrel].
  - apply QDirFacts.relativeFilePath_not_empty; [exact Habs | exact Hrel].
Qed.

Lemma get_path_split_invariant_witness :
  (exists existing missing w',
     get_path_split "/" "/r/a/b/c" (Remote.world Remote.example)
       = (Ok (existing, missing), w')
     /\ existing <> EmptyString
     /\ QDir.starts_with_slash existing = true
     /\ QDir.ends_with_slash existing = true
     /\ Remote.test_d Remote.example existing = true
     /\ ((forall p, Remote.test_d Remote.example p = true -> p = "/")
         -> existing = "/")
     /\ QDir.cleanPath (existing ++ missing)
        = QDir.cleanPath (absolute_target "/home/ubuntu" "/r/a/b/c")
     /\ missing <> EmptyString)
  /\ (exists existing missing w',
        get_path_split "/" "x/y" (Remote.world Remote.example)
          = (Ok (existing, missing), w')
        /\ existing <> EmptyString
        /\ QDir.starts_with_slash existing = true
        /\ QDir.ends_with_slash existing = true
        /\ Remote.test_d Remote.example existing = true
        /\ ((forall p, Remote.test_d Remote.example p = true -> p = "/")
            -> existing = "/")
        /\ QDir.cleanPath (existing ++ missing)
           = QDir.cleanPath (absolute_target "/home/ubuntu" "x/y")
        /\ missing <> EmptyString).
Proof.
  split.
  - apply (get_path_split_invariant (Remote.test_d Remote.example)
             "/home/ubuntu" "/" "/r/a/b/c" (Remote.world Remote.example)
             Remote.example).
    + reflexivity.
    + reflexivity.
    + reflexivity.
    + exists Remote.example. split; [reflexivity |].
      intros P HP. vm_compute in HP. injection HP as <-.
      repeat split.
  - apply (get_path_split_invariant (Remote.test_d Remote.example)
             "/home/ubuntu" "/" "x/y" (Remote.world Remote.example)
             Remote.example).
    + reflexivity.
    + reflexivity.
    + reflexivity.
    + exists Remote.example. split; [repeat split |].
      intros P HP. vm_compute in HP. injection HP as <-.
      repeat split.
Defined.

Lemma ends_with_slash_without_last (p : string) :
  QDir.ends_with_slash p = true -> p = Std.without_last p ++ "/".
Proof.
  induction p as [|c p IH]; [discriminate |].
  destruct p as [|c' p].
  - simpl. intros Hc. apply Ascii.eqb_eq in Hc. now subst c.
  - intros Hp. specialize (IH Hp).
    change (Std.without_last (String c (String c' p)) ++ "/")
      with (String c (Std.without_last (String c' p) ++ "/")).
    now rewrite <- IH.
Qed.

(** [QDir] keeps an absolute path, or takes one slash off its end. *)
Lemma new_absolute_cases (target : string) :
  QDir.isRelative (QDir.new target) = false ->
  QDir.path (QDir.new target) = target
  \/ target = QDir.path (QDir.new target) ++ "/".
Proof.
  destruct target as [|c t]; [discriminate |]. intros _.
  change (QDir.path (QDir.new (String c t)))
    with (if QDir.ends_with_slash (String c t)
             && (1 <? String.length (String c t))%nat
          then Std.without_last (String c t) else String c t).
  destruct (QDir.ends_with_slash (String c t)) eqn:E; [| now left].
  destruct (1 <? String.length (String c t))%nat; [| now left].
  right. cbv beta iota delta [andb]. now apply ends_with_slash_without_last.
Qed.

Lemma cleanPath_trailing_slash (d : string) :
  QDir.starts_with_slash d = true ->
  QDir.cleanPath (d ++ "/") = QDir.cleanPath d.
Proof.
  intros Hd.
  rewrite (QDirFacts.cleanPath_absolute d Hd).
  rewrite QDirFacts.cleanPath_absolute
    by (destruct d; [discriminate | exact Hd]).
  unfold QDir.clean_elts.
  change (d ++ "/") with (d ++ String QDir.slash EmptyString).
  rewrite QDirFacts.split_skip_empty_app_slash.
  change (QDir.split_skip_empty EmptyString) with (@nil string).
  now rewrite app_nil_r.
Qed.

(** C2, as stated, fails: [/r] exists on the host, and the split of the
    target ["/r"] has ["."] for its missing part, not the empty string. *)
Lemma get_path_split_existing_counterexample :
  Remote.test_d Remote.example "/r/" = true
  /\ fst (get_path_split "/" "/r" (Remote.world Remote.example))
     = Ok ("/r/", ".")
  /\ "." <> EmptyString.
Proof. repeat split. discriminate. Qed.

(** C2 (amended): for an absolute target that the shell takes as it
    stands (no blank, no quote, [$], backquote or backslash, no [*], [?]
    or [[]) and whose full path exists on the host, the path split returns
    the target, without the slash at its end if it had one and with a slash
    after it, as the existing path, which is the target once both are
    cleaned, and ["."] as the missing part. *)
Theorem get_path_split_existing {S : Type} `{SSHSession S}
    (test_d : string -> bool) (current_path target : string)
    (w : World S) (s' : S) :
  let absolute := QDir.path (QDir.new target) in
  QDir.isRelative (QDir.new target) = false ->
  Bash.literal absolute = true ->
  test_d (absolute ++ "/") = true ->
  (forall P,
      Bash.existing_dir test_d absolute = Some P ->
      answers (session w) (echo_cmd (existing_dir_cmd absolute))
        (Bash.unquoted (P ++ "/") ++ "-" ++ nl) s') ->
  get_path_split current_path target w
    = (Ok (absolute ++ "/", "."),
       sent w (echo_cmd (existing_dir_cmd absolute)) s')
  /\ QDir.cleanPath (absolute ++ "/") = QDir.cleanPath target.
Proof.
  intros absolute Hrel Hlit Hexists Hprobe.
  assert (Eabs : absolute_target EmptyString target = absolute)
    by (unfold absolute_target; cbv zeta; now rewrite Hrel).
  assert (Habs : QDir.starts_with_slash absolute = true).
  { unfold QDir.isRelative, QDir.isRelativePath in Hrel.
    now apply negb_false_iff in Hrel. }
  assert (Hhost : host_answers_split test_d EmptyString (session w) target s').
  { exists (session w). rewrite Hrel, Eabs. split; [reflexivity | exact Hprobe]. }
  destruct (get_path_split_answered test_d EmptyString current_path target w
              s' absolute Hhost)
    as (w' & Hsplit & _ & _ & Hw').
  { rewrite Eabs. now apply BashFacts.existing_dir_found. }
  rewrite Eabs in *. rewrite (Hw' Hrel) in Hsplit.
  rewrite (BashFacts.unquoted_above absolute absolute Hlit (or_introl eq_refl))
    in Hsplit.
  rewrite (QDirFacts.relativeFilePath_same current_path absolute Habs)
    in Hsplit.
  split; [exact Hsplit |].
  rewrite (cleanPath_trailing_slash absolute Habs).
  destruct (new_absolute_cases target Hrel) as [E | E].
  - fold absolute in E. now rewrite E.
  - fold absolute in E. clearbody absolute. subst target.
    now rewrite (cleanPath_trailing_slash absolute Habs).
Qed.

Lemma get_path_split_existing_witness :
  get_path_split "/" "/r" (Remote.world Remote.example)
    = (Ok ("/r" ++ "/", "."),
       sent (Remote.world Remote.example) (echo_cmd (existing_dir_cmd "/r"))
         Remote.example)
  /\ QDir.cleanPath ("/r" ++ "/") = QDir.cleanPath "/r".
Proof.
  apply (get_path_split_existing (Remote.test_d Remote.example) "/" "/r"
           (Remote.world Remote.example) Remote.example).
  - reflexivity.
  - reflexivity.
  - reflexivity.
  - intros P HP. vm_compute in HP. injection HP as <-. repeat split.
Defined.

(** ** The remote host *)

Module RemoteFacts.

Import Remote.

Lemma path_eqb_eq (p q : path) : path_eqb p q = true <-> p = q.
Proof.
  revert q. induction p as [|x p IH]; intros [|y q]; simpl;
    try (split; [discriminate | congruence]); [tauto |].
  rewrite andb_true_iff, String.eqb_eq, IH.
  split; [intros [-> ->]; reflexivity | intros E; now inversion E].
Qed.

(** A directory added at the end is found when none of that name was
    there. *)
Lemma owner_of_snoc (fs : list dir) (d : dir) (p : path) :
  owner_of (fs ++ [d]) p
  = match owner_of fs p with
    | Some o => Some o
    | None =>
        if path_eqb (dir_path d) p then Some (dir_user d, dir_group d)
        else None
    end.
Proof.
  induction fs as [|e fs IH]; simpl.
  - destruct (path_eqb (dir_path d) p); reflexivity.
  - destruct (path_eqb (dir_path e) p); [reflexivity | exact IH].
Qed.

Lemma is_dir_snoc (fs : list dir) (d : dir) (p : path) :
  is_dir (fs ++ [d]) p = is_dir fs p || path_eqb (dir_path d) p.
Proof.
  unfold is_dir. rewrite owner_of_snoc.
  destruct (owner_of fs p); [reflexivity |].
  destruct (path_eqb (dir_path d) p); reflexivity.
Qed.

(** [chown -R] gives a new owner to what lies under the directory and
    leaves every other directory as it was. *)
Lemma owner_of_chown_R (fs : list dir) (base p : path) (u g : string) :
  owner_of (chown_R fs base u g) p
  = if is_under base p
    then match owner_of fs p with
         | Some _ => Some (u, g)
         | None => None
         end
    else owner_of fs p.
Proof.
  induction fs as [|d fs IH]; simpl.
  - destruct (is_under base p); reflexivity.
  - destruct (path_eqb (dir_path d) p) eqn:E.
    + pose proof (proj1 (path_eqb_eq _ _) E) as Ep.
      destruct (is_under base (dir_path d)) eqn:Eu; simpl; rewrite E;
        rewrite Ep in Eu; rewrite Eu; reflexivity.
    + destruct (is_under base (dir_path d)); simpl; rewrite E; exact IH.
Qed.

Lemma split_at_found (c : ascii) (a b : string) :
  occurs c a = false ->
  split_at c (a ++ String c b) = Some (a, b).
Proof.
  induction a as [|x a IH]; simpl; intros Ha.
  - now rewrite Ascii.eqb_refl.
  - apply orb_false_elim in Ha as [Hx Ha].
    rewrite Hx, (IH Ha). reflexivity.
Qed.

(** The command line of [set_owner_for] is read as the [chown -R] it is,
    when the user name holds no colon and the group name no space. *)
Lemma parse_chown_cmd (u g : string) :
  occurs ":"%char u = false ->
  occurs " "%char g = false ->
  parse (chown_cmd "/r/" u g "a") = Plain (ChownR "/r/" u g "a").
Proof.
  intros Hu Hg. unfold parse, chown_cmd.
  change (strip_prefix "echo `" _) with (@None string). cbv iota.
  unfold parse_simple.
  repeat match goal with
         | |- context [String.eqb ?a ?b] =>
             change (String.eqb a b) with false; cbv iota
         end.
  change (strip_prefix "getent passwd " _) with (@None string). cbv iota.
  match goal with
  | |- context [strip_prefix ("sudo /bin/bash -c 'P=" ++ dq) ?c] =>
      change (strip_prefix ("sudo /bin/bash -c 'P=" ++ dq) c)
        with (@None string)
  end. cbv iota.
  match goal with
  | |- context [strip_prefix ("sudo /bin/bash -c 'cd " ++ dq) ?c] =>
      change (strip_prefix ("sudo /bin/bash -c 'cd " ++ dq) c)
        with (Some ("/r/" ++ String quote
                      (" && chown -R " ++ u ++ ":" ++ g ++ " " ++ "a" ++ "'")))
  end. cbv iota.
  unfold parse_cd. rewrite split_at_found by reflexivity.
  match goal with
  | |- context [strip_prefix (" && mkdir -p " ++ dq) ?c] =>
      change (strip_prefix (" && mkdir -p " ++ dq) c) with (@None string)
  end. cbv iota.
  match goal with
  | |- context [strip_prefix " && chown -R " ?c] =>
      change (strip_prefix " && chown -R " c)
        with (Some (u ++ String ":"%char (g ++ String " "%char "a'")))
  end. cbv iota.
  rewrite (split_at_found ":" u _ Hu).
  rewrite (split_at_found " " g _ Hg).
  reflexivity.
Qed.

End RemoteFacts.

(** ** Creating [a/b/c] under [/r] *)

Section Provisioning.

Import Remote RemoteFacts.

Variable h : host.
Variable current_path : string.

Hypothesis root_exists : is_dir (dirs h) [] = true.
Hypothesis r_exists : is_dir (dirs h) ["r"] = true.
Hypothesis a_missing : is_dir (dirs h) ["r"; "a"] = false.
Hypothesis b_missing : is_dir (dirs h) ["r"; "a"; "b"] = false.
Hypothesis c_missing : is_dir (dirs h) ["r"; "a"; "b"; "c"] = false.
Hypothesis user_plain : occurs ":"%char (user h) = false.
Hypothesis group_plain : occurs " "%char (group h) = false.

Lemma existing_dir_r :
  Bash.existing_dir (test_d h) "/r/a/b/c" = Some "/r".
Proof.
  unfold Bash.existing_dir, test_d, lookup. simpl.
  rewrite root_exists, r_exists, a_missing. reflexivity.
Qed.

Lemma get_path_split_r :
  get_path_split current_path "/r/a/b/c" (world h)
  = (Ok ("/r/", "a/b/c"),
     sent (world h) (echo_cmd (existing_dir_cmd "/r/a/b/c")) h).
Proof.
  destruct (get_path_split_answered (test_d h) EmptyString current_path
              "/r/a/b/c" (world h) h "/r")
    as (w' & Hsplit & _ & _ & Hw').
  - exists h. split; [reflexivity |].
    intros P HP. change (absolute_target EmptyString "/r/a/b/c")
      with "/r/a/b/c" in *.
    rewrite existing_dir_r in HP. injection HP as <-.
    unfold answers.
    change (exec h (echo_cmd (existing_dir_cmd "/r/a/b/c")))
      with (run h (EchoDash (ExistingDir "/r/a/b/c"))).
    unfold run, run_simple. rewrite existing_dir_r. repeat split.
  - exact existing_dir_r.
  - rewrite (Hw' eq_refl) in Hsplit. exact Hsplit.
Qed.

Lemma mkdir_p_abc :
  mkdir_p (dirs h) ["r"] ["a"; "b"; "c"] = created h.
Proof.
  unfold created. simpl.
  rewrite a_missing.
  rewrite is_dir_snoc, b_missing. simpl.
  rewrite !is_dir_snoc, c_missing. simpl.
  now rewrite <- !app_assoc.
Qed.

Lemma lookup_r (fs : list dir) (base : path) :
  is_dir fs [] = true -> is_dir fs ["r"] = true ->
  lookup fs base "/r/" = Some ["r"].
Proof.
  intros Hroot Hr. unfold lookup. simpl. now rewrite Hroot, Hr.
Qed.

Lemma make_target_dir_abc (w : World host) :
  session w = h ->
  make_target_dir "/r/" "a/b/c" w
  = (Ok tt, sent w (mkdir_cmd "/r/" "a/b/c") (with_dirs h (created h))).
Proof.
  intros Hw. unfold make_target_dir, bind.
  assert (E : exec (session w) (mkdir_cmd "/r/" "a/b/c")
              = (mkProcess 0 EmptyString EmptyString, with_dirs h (created h))).
  { rewrite Hw.
    change (exec h (mkdir_cmd "/r/" "a/b/c"))
      with (run h (Plain (MkdirP "/r/" "a/b/c"))).
    unfold run, run_simple.
    rewrite (lookup_r _ _ root_exists r_exists).
    change (QDir.starts_with_slash "a/b/c") with false.
    change (QDir.split "a/b/c") with ["a"; "b"; "c"].
    cbv beta iota. now rewrite mkdir_p_abc. }
  rewrite run_cmd_ok; rewrite E; reflexivity.
Qed.

Lemma owner_of_app (l1 l2 : list dir) (p : path) :
  owner_of (l1 ++ l2) p
  = match owner_of l1 p with
    | Some o => Some o
    | None => owner_of l2 p
    end.
Proof.
  induction l1 as [|d l1 IH]; simpl; [reflexivity |].
  destruct (path_eqb (dir_path d) p); [reflexivity | exact IH].
Qed.

Lemma is_dir_created (p : path) :
  is_dir (dirs h) p = true -> is_dir (created h) p = true.
Proof.
  unfold is_dir, created. rewrite owner_of_app.
  destruct (owner_of (dirs h) p); [reflexivity | discriminate].
Qed.

Lemma owner_of_created_new (p : path) :
  is_dir (dirs h) p = false ->
  owner_of (created h) p
  = owner_of [mkDir ["r"; "a"] "root" "root";
              mkDir ["r"; "a"; "b"] "root" "root";
              mkDir ["r"; "a"; "b"; "c"] "root" "root"] p.
Proof.
  unfold is_dir, created. rewrite owner_of_app.
  destruct (owner_of (dirs h) p); [discriminate | reflexivity].
Qed.

(** Outside [/r/a] nothing was created. *)
Lemma owner_of_created_old (p : path) :
  is_under ["r"; "a"] p = false -> owner_of (created h) p = owner_of (dirs h) p.
Proof.
  intros Hp. unfold created. rewrite owner_of_app.
  destruct (owner_of (dirs h) p); [reflexivity |].
  cbv beta iota delta [owner_of app dir_path dir_user dir_group].
  repeat match goal with
         | |- context [path_eqb ?q p] =>
             let E := fresh "E" in
             destruct (path_eqb q p) eqn:E;
             [apply path_eqb_eq in E; subst p; discriminate |]
         end.
  reflexivity.
Qed.

Lemma run_string_cmd_id (w : World host) (h1 : host) :
  session w = h1 ->
  run_string_cmd "id -nu" w = (Ok (user h1), sent w (echo_cmd "id -nu") h1)
  /\ run_string_cmd "id -ng" w
     = (Ok (group h1), sent w (echo_cmd "id -ng") h1).
Proof.
  intros Hw. split.
  - apply (run_string_cmd_sentinel "id -nu" w (user h1) nl h1 eq_refl).
    rewrite Hw. repeat split.
  - apply (run_string_cmd_sentinel "id -ng" w (group h1) nl h1 eq_refl).
    rewrite Hw. repeat split.
Qed.

Lemma set_owner_for_abc (w : World host) :
  session w = with_dirs h (created h) ->
  set_owner_for "/r/" "a/b/c" w
  = (Ok tt,
     mkWorld (with_dirs h (owned h)) (log w)
       (issued w
          ++ [echo_cmd "id -nu"; echo_cmd "id -ng";
              chown_cmd "/r/" (user h) (group h) "a"])).
Proof.
  intros Hw. unfold set_owner_for, bind.
  rewrite (proj1 (run_string_cmd_id w (with_dirs h (created h)) Hw)).
  rewrite (proj2 (run_string_cmd_id (sent w (echo_cmd "id -nu")
                                       (with_dirs h (created h)))
                    (with_dirs h (created h)) eq_refl)).
  change (first_dir_of "a/b/c") with "a". cbv zeta.
  set (w2 := sent (sent w (echo_cmd "id -nu") (with_dirs h (created h)))
               (echo_cmd "id -ng") (with_dirs h (created h))).
  change (user (with_dirs h (created h))) with (user h).
  change (group (with_dirs h (created h))) with (group h).
  assert (E : exec (session w2) (chown_cmd "/r/" (user h) (group h) "a")
              = (mkProcess 0 EmptyString EmptyString, with_dirs h (owned h))).
  { change (exec (session w2) (chown_cmd "/r/" (user h) (group h) "a"))
      with (run (with_dirs h (created h))
              (parse (chown_cmd "/r/" (user h) (group h) "a"))).
    rewrite (parse_chown_cmd _ _ user_plain group_plain).
    unfold run, run_simple.
    change (dirs (with_dirs h (created h))) with (created h).
    rewrite (lookup_r (created h) _ (is_dir_created _ root_exists)
               (is_dir_created _ r_exists)).
    assert (Ea : lookup (created h) ["r"] "a" = Some ["r"; "a"]).
    { unfold lookup. simpl.
      rewrite (is_dir_created _ r_exists).
      unfold is_dir. now rewrite (owner_of_created_new _ a_missing). }
    rewrite Ea. reflexivity. }
  rewrite run_cmd_ok; rewrite E; [| reflexivity].
  unfold ret, sent, w2. simpl. now rewrite <- !app_assoc.
Qed.

Lemma provision_abc :
  provision current_path "/r/a/b/c" (world h)
  = (Ok tt,
     mkWorld (with_dirs h (owned h)) []
       [echo_cmd (existing_dir_cmd "/r/a/b/c"); mkdir_cmd "/r/" "a/b/c";
        echo_cmd "id -nu"; echo_cmd "id -ng";
        chown_cmd "/r/" (user h) (group h) "a"]).
Proof.
  unfold provision, bind. rewrite get_path_split_r.
  rewrite make_target_dir_abc by reflexivity.
  now rewrite set_owner_for_abc by reflexivity.
Qed.

End Provisioning.

(** C6: on a host where [/r] exists and [/r/a], [/r/a/b], [/r/a/b/c] do
    not, the split of ["/r/a/b/c"] is [("/r/", "a/b/c")]; provisioning sends
    one [chown -R], run in [/r/] on the first missing segment [a]; after it
    the three directories exist and, like everything under [/r/a], belong to
    the connecting user and group, while every directory outside [/r/a],
    the root [/r] among them, has the owner it had. *)
Theorem provision_owns_first_segment (h : Remote.host)
    (current_path : string) :
  Remote.is_dir (Remote.dirs h) [] = true ->
  Remote.is_dir (Remote.dirs h) ["r"] = true ->
  Remote.is_dir (Remote.dirs h) ["r"; "a"] = false ->
  Remote.is_dir (Remote.dirs h) ["r"; "a"; "b"] = false ->
  Remote.is_dir (Remote.dirs h) ["r"; "a"; "b"; "c"] = false ->
  occurs ":"%char (Remote.user h) = false ->
  occurs " "%char (Remote.group h) = false ->
  let done := provision current_path "/r/a/b/c" (Remote.world h) in
  let fs := Remote.dirs (session (snd done)) in
  let owner := Some (Remote.user h, Remote.group h) in
  fst (get_path_split current_path "/r/a/b/c" (Remote.world h))
    = Ok ("/r/", "a/b/c")
  /\ fst done = Ok tt
  /\ issued (snd done)
     = [echo_cmd (existing_dir_cmd "/r/a/b/c"); mkdir_cmd "/r/" "a/b/c";
        echo_cmd "id -nu"; echo_cmd "id -ng";
        chown_cmd "/r/" (Remote.user h) (Remote.group h) "a"]
  /\ Remote.owner_of fs ["r"; "a"] = owner
  /\ Remote.owner_of fs ["r"; "a"; "b"] = owner
  /\ Remote.owner_of fs ["r"; "a"; "b"; "c"] = owner
  /\ (forall p, Remote.is_under ["r"; "a"] p = true ->
                Remote.is_dir fs p = true -> Remote.owner_of fs p = owner)
  /\ (forall p, Remote.is_under ["r"; "a"] p = false ->
                Remote.owner_of fs p = Remote.owner_of (Remote.dirs h) p)
  /\ Remote.owner_of fs ["r"] = Remote.owner_of (Remote.dirs h) ["r"].
Proof.
  intros Hroot Hr Ha Hb Hc Hu Hg done fs owner.
  assert (Edone : done
            = (Ok tt,
               mkWorld (Remote.with_dirs h (Remote.owned h)) []
                 [echo_cmd (existing_dir_cmd "/r/a/b/c");
                  mkdir_cmd "/r/" "a/b/c";
                  echo_cmd "id -nu"; echo_cmd "id -ng";
                  chown_cmd "/r/" (Remote.user h) (Remote.group h) "a"]))
    by (now apply provision_abc).
  assert (Efs : fs = Remote.owned h) by (unfold fs; now rewrite Edone).
  assert (Hunder : forall p, Remote.is_under ["r"; "a"] p = true ->
                     Remote.is_dir fs p = true -> Remote.owner_of fs p = owner).
  { intros p Hp Hdir. unfold Remote.is_dir in Hdir. rewrite Efs in *.
    unfold Remote.owned in *. rewrite RemoteFacts.owner_of_chown_R, Hp in *.
    destruct (Remote.owner_of (Remote.created h) p);
      [reflexivity | discriminate]. }
  assert (Hnew : forall p, Remote.is_under ["r"; "a"] p = true ->
                   Remote.is_dir (Remote.dirs h) p = false ->
                   Remote.owner_of
                     [Remote.mkDir ["r"; "a"] "root" "root";
                      Remote.mkDir ["r"; "a"; "b"] "root" "root";
                      Remote.mkDir ["r"; "a"; "b"; "c"] "root" "root"] p
                     <> None ->
                   Remote.owner_of fs p = owner).
  { intros p Hp Hmissing Hcreated. apply Hunder; [exact Hp |].
    rewrite Efs. unfold Remote.is_dir, Remote.owned.
    rewrite RemoteFacts.owner_of_chown_R, Hp.
    rewrite (owner_of_created_new h p Hmissing).
    now destruct (Remote.owner_of _ p). }
  assert (Hframe : forall p, Remote.is_under ["r"; "a"] p = false ->
                     Remote.owner_of fs p
                     = Remote.owner_of (Remote.dirs h) p).
  { intros p Hp. rewrite Efs. unfold Remote.owned.
    rewrite RemoteFacts.owner_of_chown_R, Hp.
    now apply owner_of_created_old. }
  repeat split.
  - now rewrite get_path_split_r.
  - now rewrite Edone.
  - now rewrite Edone.
  - apply Hnew; [reflexivity | exact Ha | discriminate].
  - apply Hnew; [reflexivity | exact Hb | discriminate].
  - apply Hnew; [reflexivity | exact Hc | discriminate].
  - exact Hunder.
  - exact Hframe.
  - now apply Hframe.
Qed.

Lemma provision_owns_first_segment_witness :
  let done := provision "/" "/r/a/b/c" (Remote.world Remote.example) in
  let fs := Remote.dirs (session (snd done)) in
  fst done = Ok tt
  /\ Remote.owner_of fs ["r"; "a"] = Some ("ubuntu", "ubuntu")
  /\ Remote.owner_of fs ["r"] = Some ("root", "root").
Proof.
  destruct (provision_owns_first_segment Remote.example "/"
              eq_refl eq_refl eq_refl eq_refl eq_refl eq_refl eq_refl)
    as (_ & Hdone & _ & Ha & _ & _ & _ & _ & Hr).
  split; [exact Hdone | split; [exact Ha | exact Hr]].
Defined.

(** ** Preparing twice *)

(** C3: the first run creates [/r/a/b/c] on the host; the second run, on
    the host as the first left it, finds the full path, takes ["."] for
    what is missing and, since that is not the empty string, sends
    [mkdir -p "."] (and [chown -R] on [.]) in the target; it succeeds.
    Only [make_target_dir] looks at all whether something is missing: on an
    empty remainder [set_owner_for] would send [chown -R] without a file
    and throw. *)
Theorem prepare_twice_sends_mkdir :
  let prepare := make_sftp_server "/" "sshfs_mount.cpp" "/src" "/r/a/b/c"
                   [] [] in
  let first := prepare (Remote.world Remote.example) in
  let provisioned := session (snd first) in
  let second := prepare (Remote.world provisioned) in
  (exists server, fst first = Ok server)
  /\ Remote.test_d provisioned "/r/a/b/c/" = true
  /\ fst (get_path_split "/" "/r/a/b/c" (Remote.world provisioned))
     = Ok ("/r/a/b/c/", ".")
  /\ issued (snd second)
     = ["which sshfs"; echo_cmd (existing_dir_cmd "/r/a/b/c");
        mkdir_cmd "/r/a/b/c/" "."; echo_cmd "id -nu"; echo_cmd "id -ng";
        chown_cmd "/r/a/b/c/" "ubuntu" "ubuntu" "."; "id -u"; "id -g"]
  /\ In (mkdir_cmd "/r/a/b/c/" ".") (issued (snd second))
  /\ (exists server, fst second = Ok server)
  /\ fst ((make_target_dir "/r/a/b/c/" EmptyString ;;;
           set_owner_for "/r/a/b/c/" EmptyString)
            (Remote.world provisioned))
     = Throw (runtime_error "chown: missing operand").
Proof.
  cbv zeta.
  split; [eexists; vm_compute; reflexivity |].
  split; [vm_compute; reflexivity |].
  split; [vm_compute; reflexivity |].
  split; [vm_compute; reflexivity |].
  split; [vm_compute; tauto |].
  split; [eexists; vm_compute; reflexivity |].
  vm_compute. reflexivity.
Qed.

(** * Further properties *)

(** ** Numbers in decimal *)

Module StoiFacts.

Import Decimal.

Lemma read_digits_uint (d : uint) (rest : string) (acc : Z) :
  no_digit_ahead rest ->
  Std.read_digits (NilEmpty.string_of_uint d ++ rest) (Some acc)
  = Some (uint_value d acc).
Proof.
  intros Hrest. revert acc.
  induction d; intros acc; simpl;
    try (rewrite IHd; reflexivity).
  destruct rest as [|c r]; [reflexivity |].
  simpl in *. now rewrite Hrest.
Qed.

Lemma read_digits_start (s : string) :
  (exists c r, s = String c r /\ Std.digit_of c <> None) ->
  Std.read_digits s None = Std.read_digits s (Some 0%Z).
Proof.
  intros (c & r & -> & Hc). simpl.
  destruct (Std.digit_of c); [reflexivity | contradiction].
Qed.

(** A number's digits start with a digit: no space, no sign. *)
Lemma string_of_uint_head (d : uint) :
  d <> Nil ->
  exists c r,
    NilEmpty.string_of_uint d = String c r
    /\ Std.digit_of c <> None
    /\ Std.isspace c = false
    /\ Ascii.eqb c "-"%char = false
    /\ Ascii.eqb c "+"%char = false.
Proof.
  destruct d; [congruence | ..]; intros _; simpl;
    eexists; eexists; (split; [reflexivity |]);
    repeat split; discriminate.
Qed.

Lemma uint_value_acc (d : uint) (p : positive) :
  Zpos (Pos.of_uint_acc d p) = uint_value d (Zpos p).
Proof.
  revert p. induction d; intros p;
    cbn [Pos.of_uint_acc uint_value]; try reflexivity;
    rewrite IHd; f_equal; lia.
Qed.

Lemma uint_value_of_uint (d : uint) :
  Z.of_N (Pos.of_uint d) = uint_value d 0.
Proof.
  induction d; cbn [Pos.of_uint uint_value]; try reflexivity;
    try exact IHd; apply uint_value_acc.
Qed.

Lemma uint_value_to_uint (p : positive) :
  uint_value (Pos.to_uint p) 0 = Zpos p.
Proof.
  rewrite <- uint_value_of_uint, DecimalPos.Unsigned.of_to. reflexivity.
Qed.

Lemma read_digits_positive (p : positive) (rest : string) :
  no_digit_ahead rest ->
  Std.read_digits (NilEmpty.string_of_uint (Pos.to_uint p) ++ rest) None
  = Some (Zpos p).
Proof.
  intros Hrest.
  destruct (string_of_uint_head (Pos.to_uint p)
              (DecimalPos.Unsigned.to_uint_nonnil p))
    as (c & r & E & Hc & _).
  rewrite read_digits_start by (exists c, (r ++ rest); now rewrite E).
  rewrite (read_digits_uint _ _ _ Hrest). f_equal.
  apply uint_value_to_uint.
Qed.

Lemma string_of_uint_nilzero (p : positive) :
  NilZero.string_of_uint (Pos.to_uint p)
  = NilEmpty.string_of_uint (Pos.to_uint p).
Proof.
  pose proof (DecimalPos.Unsigned.to_uint_nonnil p) as Hp.
  destruct (Pos.to_uint p); [congruence | reflexivity ..].
Qed.

Lemma stoi_unsigned (c : ascii) (r : string) (v : Z) :
  Std.isspace c = false ->
  Ascii.eqb c "-"%char = false ->
  Ascii.eqb c "+"%char = false ->
  Std.read_digits (String c r) None = Some v ->
  Std.stoi (String c r)
  = if ((Std.INT_MIN <=? v) && (v <=? Std.INT_MAX))%Z
    then Std.stoi_value v else Std.stoi_out_of_range.
Proof.
  intros Hsp Hminus Hplus Hread. unfold Std.stoi.
  cbn [Std.skip_space]. rewrite Hsp, Hminus, Hplus, Hread. reflexivity.
Qed.

Lemma stoi_negative (s : string) (v : Z) :
  Std.read_digits s None = Some v ->
  Std.stoi (String "-"%char s)
  = if ((Std.INT_MIN <=? - v) && (- v <=? Std.INT_MAX))%Z
    then Std.stoi_value (- v) else Std.stoi_out_of_range.
Proof.
  intros Hread. unfold Std.stoi.
  change (Std.skip_space (String "-"%char s)) with (String "-"%char s).
  cbv beta iota zeta.
  change (Ascii.eqb "-"%char "-"%char) with true. cbv beta iota zeta.
  rewrite Hread. reflexivity.
Qed.

(** [std::stoi] reads back a number written in decimal and stops at what
    follows it; outside the range of [int] it is out of range. *)
Lemma stoi_decimal (z : Z) (rest : string) :
  no_digit_ahead rest ->
  Std.stoi (Remote.decimal z ++ rest)
  = if ((Std.INT_MIN <=? z) && (z <=? Std.INT_MAX))%Z
    then Std.stoi_value z else Std.stoi_out_of_range.
Proof.
  intros Hrest. unfold Remote.decimal.
  destruct z as [|p|p]; simpl Z.to_int.
  - change (NilZero.string_of_int (Pos zero) ++ rest)
      with (String "0"%char rest).
    apply stoi_unsigned; try reflexivity.
    destruct rest as [|c r]; [reflexivity |].
    simpl in *. now rewrite Hrest.
  - unfold NilZero.string_of_int. rewrite string_of_uint_nilzero.
    pose proof (read_digits_positive p rest Hrest) as Hread.
    destruct (string_of_uint_head (Pos.to_uint p)
                (DecimalPos.Unsigned.to_uint_nonnil p))
      as (c & r & E & _ & Hsp & Hminus & Hplus).
    rewrite E in *. now apply stoi_unsigned.
  - unfold NilZero.string_of_int. rewrite string_of_uint_nilzero.
    apply (stoi_negative _ (Zpos p)).
    now apply read_digits_positive.
Qed.

End StoiFacts.

(** ** The whole preparation, on a host that lacks [a/b/c] under [/r] *)

Section Preparing.

Import Remote RemoteFacts.

Variable h : host.
Variables current_path source_file source : string.
Variables gid_map uid_map : id_map.

Hypothesis root_exists : is_dir (dirs h) [] = true.
Hypothesis r_exists : is_dir (dirs h) ["r"] = true.
Hypothesis a_missing : is_dir (dirs h) ["r"; "a"] = false.
Hypothesis b_missing : is_dir (dirs h) ["r"; "a"; "b"] = false.
Hypothesis c_missing : is_dir (dirs h) ["r"; "a"; "b"; "c"] = false.
Hypothesis user_plain : occurs ":"%char (user h) = false.
Hypothesis group_plain : occurs " "%char (group h) = false.
Hypothesis sshfs_installed : sshfs h = true.

Lemma check_sshfs_exists_found (w : World host) :
  session w = h ->
  check_sshfs_exists w = (Ok tt, sent w "which sshfs" h).
Proof.
  intros Hw. unfold check_sshfs_exists, run_cmd_with, bind, session_exec.
  rewrite Hw.
  change (exec h "which sshfs") with (run h (Plain WhichSshfs)).
  unfold run, run_simple. rewrite sshfs_installed. reflexivity.
Qed.

Lemma get_path_split_abc (w : World host) :
  session w = h ->
  get_path_split current_path "/r/a/b/c" w
  = (Ok ("/r/", "a/b/c"),
     sent w (echo_cmd (existing_dir_cmd "/r/a/b/c")) h).
Proof.
  intros Hw.
  pose proof (existing_dir_r h root_exists r_exists a_missing) as Hdir.
  destruct (get_path_split_answered (test_d h) EmptyString current_path
              "/r/a/b/c" w h "/r")
    as (w' & Hsplit & _ & _ & Hw').
  - exists h. split; [symmetry; exact Hw |].
    intros P HP. change (absolute_target EmptyString "/r/a/b/c")
      with "/r/a/b/c" in *.
    rewrite Hdir in HP. injection HP as <-.
    unfold answers.
    change (exec h (echo_cmd (existing_dir_cmd "/r/a/b/c")))
      with (run h (EchoDash (ExistingDir "/r/a/b/c"))).
    unfold run, run_simple. rewrite Hdir. repeat split.
  - exact Hdir.
  - rewrite (Hw' eq_refl) in Hsplit. exact Hsplit.
Qed.

Lemma run_cmd_id (w : World host) (h1 : host) :
  session w = h1 ->
  run_cmd "id -u" w = (Ok (decimal (uid h1) ++ nl), sent w "id -u" h1)
  /\ run_cmd "id -g" w = (Ok (decimal (gid h1) ++ nl), sent w "id -g" h1).
Proof.
  intros Hw. split.
  - rewrite run_cmd_ok; rewrite Hw;
      change (exec h1 "id -u") with (run h1 (Plain IdU));
      unfold run, run_simple; reflexivity.
  - rewrite run_cmd_ok; rewrite Hw;
      change (exec h1 "id -g") with (run h1 (Plain IdG));
      unfold run, run_simple; reflexivity.
Qed.

(** The preparation up to the two [std::stoi], on which its outcome
    hangs. *)
Lemma make_sftp_server_abc :
  make_sftp_server current_path source_file source "/r/a/b/c" gid_map uid_map
    (world h)
  = let provisioned := with_dirs h (owned h) in
    let out_u := decimal (uid h) ++ nl in
    let out_g := decimal (gid h) ++ nl in
    let log_u := [entry_call source_file source "/r/a/b/c";
                  entry_uid source_file out_u] in
    let sent_u := (abc_commands h ++ ["id -u"])%list in
    let w_u := mkWorld provisioned log_u sent_u in
    let w_g := mkWorld provisioned
                 (log_u ++ [entry_gid source_file out_g])%list
                 (sent_u ++ ["id -g"])%list in
    match Std.stoi out_u with
    | Std.stoi_value u =>
        match Std.stoi out_g with
        | Std.stoi_value g =>
            (Ok (mkSftpServer provisioned source "/r/a/b/c" gid_map uid_map
                   u g), w_g)
        | Std.stoi_invalid_argument => (Throw (invalid_argument "stoi"), w_g)
        | Std.stoi_out_of_range => (Throw (out_of_range "stoi"), w_g)
        end
    | Std.stoi_invalid_argument => (Throw (invalid_argument "stoi"), w_u)
    | Std.stoi_out_of_range => (Throw (out_of_range "stoi"), w_u)
    end.
Proof.
  unfold make_sftp_server.
  change (expand_home_directory "/r/a/b/c") with (@ret host string "/r/a/b/c").
  unfold bind at 1. unfold mpl_log at 1. cbv beta iota.
  unfold bind at 1. rewrite check_sshfs_exists_found by reflexivity.
  unfold bind at 1. unfold ret at 1.
  unfold bind at 1. rewrite get_path_split_abc by reflexivity.
  unfold bind at 1.
  rewrite (make_target_dir_abc h root_exists r_exists a_missing b_missing
             c_missing) by reflexivity.
  unfold bind at 1.
  rewrite (set_owner_for_abc h root_exists r_exists a_missing
             user_plain group_plain) by reflexivity.
  unfold bind at 1.
  match goal with
  | |- context [run_cmd "id -u" ?w] =>
      rewrite (proj1 (run_cmd_id w (with_dirs h (owned h)) eq_refl))
  end.
  unfold bind at 1. unfold mpl_log at 1. cbv beta iota.
  unfold bind at 1. unfold std_stoi at 1.
  change (uid (with_dirs h (owned h))) with (uid h).
  cbv zeta.
  destruct (Std.stoi (decimal (uid h) ++ nl)); try reflexivity.
  unfold ret at 1. unfold bind at 1.
  match goal with
  | |- context [run_cmd "id -g" ?w] =>
      rewrite (proj2 (run_cmd_id w (with_dirs h (owned h)) eq_refl))
  end.
  unfold bind at 1. unfold mpl_log at 1. cbv beta iota.
  unfold bind at 1. unfold std_stoi at 1.
  change (gid (with_dirs h (owned h))) with (gid h).
  destruct (Std.stoi (decimal (gid h) ++ nl)); reflexivity.
Qed.

End Preparing.

(** X1: on a host where [/r] exists, [a/b/c] under it does not, [sshfs] is
    installed and the numeric ids fit an [int], constructing the mount
    succeeds: eight commands are sent in the order of the source, three
    debug lines and no warning are logged, the server is given the target,
    the two maps as they came and the ids the host printed, and the handle
    starts with its one thread. *)
Theorem SshfsMount_new_prepares (h : Remote.host)
    (current_path source_file source : string) (gid_map uid_map : id_map) :
  Remote.is_dir (Remote.dirs h) [] = true ->
  Remote.is_dir (Remote.dirs h) ["r"] = true ->
  Remote.is_dir (Remote.dirs h) ["r"; "a"] = false ->
  Remote.is_dir (Remote.dirs h) ["r"; "a"; "b"] = false ->
  Remote.is_dir (Remote.dirs h) ["r"; "a"; "b"; "c"] = false ->
  occurs ":"%char (Remote.user h) = false ->
  occurs " "%char (Remote.group h) = false ->
  Remote.sshfs h = true ->
  (Std.INT_MIN <= Remote.uid h <= Std.INT_MAX)%Z ->
  (Std.INT_MIN <= Remote.gid h <= Std.INT_MAX)%Z ->
  let provisioned := Remote.with_dirs h (Remote.owned h) in
  let out_u := Remote.decimal (Remote.uid h) ++ nl in
  let out_g := Remote.decimal (Remote.gid h) ++ nl in
  SshfsMount_new current_path source_file source "/r/a/b/c" gid_map uid_map
    (Remote.world h)
  = (Ok (started
           (mkSftpServer provisioned source "/r/a/b/c" gid_map uid_map
              (Remote.uid h) (Remote.gid h))),
     mkWorld provisioned
       [entry_call source_file source "/r/a/b/c";
        entry_uid source_file out_u; entry_gid source_file out_g]
       (abc_commands h ++ ["id -u"; "id -g"])).
Proof.
  intros Hroot Hr Ha Hb Hc Hu Hg Hsshfs Huid Hgid provisioned out_u out_g.
  unfold SshfsMount_new, bind.
  rewrite (make_sftp_server_abc h current_path source_file source gid_map
             uid_map Hroot Hr Ha Hb Hc Hu Hg Hsshfs).
  cbv zeta.
  rewrite !StoiFacts.stoi_decimal by reflexivity.
  replace ((Std.INT_MIN <=? Remote.uid h) && (Remote.uid h <=? Std.INT_MAX))%Z
    with true by (symmetry; apply andb_true_iff; split; apply Z.leb_le; lia).
  replace ((Std.INT_MIN <=? Remote.gid h) && (Remote.gid h <=? Std.INT_MAX))%Z
    with true by (symmetry; apply andb_true_iff; split; apply Z.leb_le; lia).
  unfold ret. now rewrite <- app_assoc.
Qed.

Lemma SshfsMount_new_prepares_witness :
  exists m w,
    SshfsMount_new "/" "sshfs_mount.cpp" "/src" "/r/a/b/c" [(0, 1000)%Z] []
      (Remote.world Remote.example) = (Ok m, w)
    /\ default_uid (sftp_server m) = 1000%Z
    /\ server_gid_map (sftp_server m) = [(0, 1000)%Z]
    /\ List.length (issued w) = 8.
Proof.
  eexists. eexists. split.
  - apply (SshfsMount_new_prepares Remote.example "/" "sshfs_mount.cpp"
             "/src" [(0, 1000)%Z] []);
      try reflexivity; split; discriminate.
  - repeat split.
Defined.

(** X2: when the host prints a user id above the largest [int], the
    preparation throws [std::out_of_range] from [std::stoi], after the
    directories were created and handed over: they stay, [id -g] is not
    asked, and no server is made. *)
Theorem make_sftp_server_uid_out_of_range (h : Remote.host)
    (current_path source_file source : string) (gid_map uid_map : id_map) :
  Remote.is_dir (Remote.dirs h) [] = true ->
  Remote.is_dir (Remote.dirs h) ["r"] = true ->
  Remote.is_dir (Remote.dirs h) ["r"; "a"] = false ->
  Remote.is_dir (Remote.dirs h) ["r"; "a"; "b"] = false ->
  Remote.is_dir (Remote.dirs h) ["r"; "a"; "b"; "c"] = false ->
  occurs ":"%char (Remote.user h) = false ->
  occurs " "%char (Remote.group h) = false ->
  Remote.sshfs h = true ->
  (Std.INT_MAX < Remote.uid h)%Z ->
  let done := make_sftp_server current_path source_file source "/r/a/b/c"
                gid_map uid_map (Remote.world h) in
  fst done = Throw (out_of_range "stoi")
  /\ Remote.dirs (session (snd done)) = Remote.owned h
  /\ issued (snd done) = (abc_commands h ++ ["id -u"])%list
  /\ Remote.is_dir (Remote.dirs (session (snd done))) ["r"; "a"; "b"; "c"]
     = true.
Proof.
  intros Hroot Hr Ha Hb Hc Hu Hg Hsshfs Huid done. unfold done.
  rewrite (make_sftp_server_abc h current_path source_file source gid_map
             uid_map Hroot Hr Ha Hb Hc Hu Hg Hsshfs).
  cbv zeta.
  rewrite StoiFacts.stoi_decimal by reflexivity.
  replace ((Std.INT_MIN <=? Remote.uid h) && (Remote.uid h <=? Std.INT_MAX))%Z
    with false
    by (symmetry; apply andb_false_iff; right; apply Z.leb_gt; exact Huid).
  repeat split.
  simpl. unfold Remote.is_dir, Remote.owned.
  rewrite RemoteFacts.owner_of_chown_R.
  rewrite (owner_of_created_new h _ Hc). reflexivity.
Qed.

Lemma make_sftp_server_uid_out_of_range_witness :
  let h := Remote.mkHost (Remote.dirs Remote.example) ["home"; "ubuntu"]
             "nobody" "nogroup" 4294967294 4294967294 [] true in
  fst (make_sftp_server "/" "sshfs_mount.cpp" "/src" "/r/a/b/c" [] []
         (Remote.world h))
  = Throw (out_of_range "stoi").
Proof.
  intros h.
  apply (make_sftp_server_uid_out_of_range h "/" "sshfs_mount.cpp" "/src"
           [] []); reflexivity.
Defined.

(** ** Provisioning a target that exists *)

Section ExistingTarget.

Import Remote RemoteFacts.

Variable h : host.
Variable current_path : string.

Hypothesis root_exists : is_dir (dirs h) [] = true.
Hypothesis r_exists : is_dir (dirs h) ["r"] = true.
Hypothesis user_plain : occurs ":"%char (user h) = false.
Hypothesis group_plain : occurs " "%char (group h) = false.

Lemma existing_dir_r_itself :
  Bash.existing_dir (test_d h) "/r" = Some "/r".
Proof.
  apply BashFacts.existing_dir_found.
  unfold test_d. now rewrite (lookup_r _ _ root_exists r_exists).
Qed.

Lemma get_path_split_r_itself :
  get_path_split current_path "/r" (world h)
  = (Ok ("/r/", "."), sent (world h) (echo_cmd (existing_dir_cmd "/r")) h).
Proof.
  destruct (get_path_split_answered (test_d h) EmptyString current_path
              "/r" (world h) h "/r")
    as (w' & Hsplit & _ & _ & Hw').
  - exists h. split; [reflexivity |].
    intros P HP. change (absolute_target EmptyString "/r") with "/r" in *.
    rewrite existing_dir_r_itself in HP. injection HP as <-.
    unfold answers.
    change (exec h (echo_cmd (existing_dir_cmd "/r")))
      with (run h (EchoDash (ExistingDir "/r"))).
    unfold run, run_simple. rewrite existing_dir_r_itself. repeat split.
  - exact existing_dir_r_itself.
  - rewrite (Hw' eq_refl) in Hsplit. exact Hsplit.
Qed.

(** [mkdir -p "."] creates nothing. *)
Lemma make_target_dir_dot (w : World host) :
  session w = h ->
  make_target_dir "/r/" "." w
  = (Ok tt, sent w (mkdir_cmd "/r/" ".") (with_dirs h (dirs h))).
Proof.
  intros Hw. unfold make_target_dir, bind.
  assert (E : exec (session w) (mkdir_cmd "/r/" ".")
              = (mkProcess 0 EmptyString EmptyString, with_dirs h (dirs h))).
  { rewrite Hw.
    change (exec h (mkdir_cmd "/r/" "."))
      with (run h (Plain (MkdirP "/r/" "."))).
    unfold run, run_simple.
    rewrite (lookup_r _ _ root_exists r_exists). reflexivity. }
  rewrite run_cmd_ok; rewrite E; reflexivity.
Qed.

Lemma parse_chown_cmd_dot (u g : string) :
  occurs ":"%char u = false ->
  occurs " "%char g = false ->
  parse (chown_cmd "/r/" u g ".") = Plain (ChownR "/r/" u g ".").
Proof.
  intros Hu Hg. unfold parse, chown_cmd.
  change (strip_prefix "echo `" _) with (@None string). cbv iota.
  unfold parse_simple.
  repeat match goal with
         | |- context [String.eqb ?a ?b] =>
             change (String.eqb a b) with false; cbv iota
         end.
  change (strip_prefix "getent passwd " _) with (@None string). cbv iota.
  match goal with
  | |- context [strip_prefix ("sudo /bin/bash -c 'P=" ++ dq) ?c] =>
      change (strip_prefix ("sudo /bin/bash -c 'P=" ++ dq) c)
        with (@None string)
  end. cbv iota.
  match goal with
  | |- context [strip_prefix ("sudo /bin/bash -c 'cd " ++ dq) ?c] =>
      change (strip_prefix ("sudo /bin/bash -c 'cd " ++ dq) c)
        with (Some ("/r/" ++ String quote
                      (" && chown -R " ++ u ++ ":" ++ g ++ " " ++ "." ++ "'")))
  end. cbv iota.
  unfold parse_cd. rewrite split_at_found by reflexivity.
  match goal with
  | |- context [strip_prefix (" && mkdir -p " ++ dq) ?c] =>
      change (strip_prefix (" && mkdir -p " ++ dq) c) with (@None string)
  end. cbv iota.
  match goal with
  | |- context [strip_prefix " && chown -R " ?c] =>
      change (strip_prefix " && chown -R " c)
        with (Some (u ++ String ":"%char (g ++ String " "%char ".'")))
  end. cbv iota.
  rewrite (split_at_found ":" u _ Hu).
  rewrite (split_at_found " " g _ Hg).
  reflexivity.
Qed.

Lemma set_owner_for_dot (w : World host) :
  session w = with_dirs h (dirs h) ->
  set_owner_for "/r/" "." w
  = (Ok tt,
     mkWorld (with_dirs h (chown_R (dirs h) ["r"] (user h) (group h)))
       (log w)
       (issued w
          ++ [echo_cmd "id -nu"; echo_cmd "id -ng";
              chown_cmd "/r/" (user h) (group h) "."])).
Proof.
  intros Hw. unfold set_owner_for, bind.
  set (h1 := with_dirs h (dirs h)) in *.
  rewrite (proj1 (run_string_cmd_id w h1 Hw)).
  rewrite (proj2 (run_string_cmd_id (sent w (echo_cmd "id -nu") h1) h1
                    eq_refl)).
  change (first_dir_of ".") with ".". cbv zeta.
  set (w2 := sent (sent w (echo_cmd "id -nu") h1) (echo_cmd "id -ng") h1).
  change (user h1) with (user h). change (group h1) with (group h).
  assert (E : exec (session w2) (chown_cmd "/r/" (user h) (group h) ".")
              = (mkProcess 0 EmptyString EmptyString,
                 with_dirs h (chown_R (dirs h) ["r"] (user h) (group h)))).
  { change (exec (session w2) (chown_cmd "/r/" (user h) (group h) "."))
      with (run h1 (parse (chown_cmd "/r/" (user h) (group h) "."))).
    rewrite (parse_chown_cmd_dot _ _ user_plain group_plain).
    unfold run, run_simple.
    change (dirs h1) with (dirs h).
    rewrite (lookup_r _ _ root_exists r_exists).
    assert (Edot : lookup (dirs h) ["r"] "." = Some ["r"]).
    { unfold lookup. simpl. now rewrite r_exists. }
    rewrite Edot. reflexivity. }
  rewrite run_cmd_ok; rewrite E; [| reflexivity].
  unfold ret, sent, w2. simpl. now rewrite <- !app_assoc.
Qed.

Lemma provision_r_itself :
  provision current_path "/r" (world h)
  = (Ok tt,
     mkWorld (with_dirs h (chown_R (dirs h) ["r"] (user h) (group h))) []
       [echo_cmd (existing_dir_cmd "/r"); mkdir_cmd "/r/" ".";
        echo_cmd "id -nu"; echo_cmd "id -ng";
        chown_cmd "/r/" (user h) (group h) "."]).
Proof.
  unfold provision, bind. rewrite get_path_split_r_itself.
  rewrite make_target_dir_dot by reflexivity.
  now rewrite set_owner_for_dot by reflexivity.
Qed.

End ExistingTarget.

(** X3: provisioning a target that already exists, [/r], takes it over:
    [chown -R] is run on [.] inside it, so [/r] and every directory under
    it get the connecting user and group whoever owned them, no directory
    is created or lost, and what lies outside [/r] keeps its owner. *)
Theorem provision_takes_over_existing_target (h : Remote.host)
    (current_path : string) :
  Remote.is_dir (Remote.dirs h) [] = true ->
  Remote.is_dir (Remote.dirs h) ["r"] = true ->
  occurs ":"%char (Remote.user h) = false ->
  occurs " "%char (Remote.group h) = false ->
  let done := provision current_path "/r" (Remote.world h) in
  let fs := Remote.dirs (session (snd done)) in
  fst done = Ok tt
  /\ In (chown_cmd "/r/" (Remote.user h) (Remote.group h) ".")
       (issued (snd done))
  /\ Remote.owner_of fs ["r"] = Some (Remote.user h, Remote.group h)
  /\ (forall p, Remote.is_dir fs p = Remote.is_dir (Remote.dirs h) p)
  /\ (forall p, Remote.is_under ["r"] p = true ->
                Remote.is_dir (Remote.dirs h) p = true ->
                Remote.owner_of fs p = Some (Remote.user h, Remote.group h))
  /\ (forall p, Remote.is_under ["r"] p = false ->
                Remote.owner_of fs p = Remote.owner_of (Remote.dirs h) p).
Proof.
  intros Hroot Hr Hu Hg done fs.
  assert (Edone : done = _) by (now apply provision_r_itself).
  assert (Efs : fs = Remote.chown_R (Remote.dirs h) ["r"] (Remote.user h)
                       (Remote.group h))
    by (unfold fs; now rewrite Edone).
  assert (Hunder : forall p, Remote.is_under ["r"] p = true ->
                     Remote.is_dir (Remote.dirs h) p = true ->
                     Remote.owner_of fs p
                     = Some (Remote.user h, Remote.group h)).
  { intros p Hp Hdir. rewrite Efs, RemoteFacts.owner_of_chown_R, Hp.
    unfold Remote.is_dir in Hdir.
    destruct (Remote.owner_of (Remote.dirs h) p); [reflexivity | discriminate]. }
  split; [now rewrite Edone |].
  split; [rewrite Edone; simpl; tauto |].
  split; [now apply Hunder |].
  split; [| split; [exact Hunder |]].
  - intros p. rewrite Efs. unfold Remote.is_dir.
    rewrite RemoteFacts.owner_of_chown_R.
    destruct (Remote.is_under ["r"] p); [| reflexivity].
    now destruct (Remote.owner_of (Remote.dirs h) p).
  - intros p Hp. now rewrite Efs, RemoteFacts.owner_of_chown_R, Hp.
Qed.

Lemma provision_takes_over_existing_target_witness :
  let done := provision "/" "/r" (Remote.world Remote.example) in
  Remote.owner_of (Remote.dirs Remote.example) ["r"] = Some ("root", "root")
  /\ Remote.owner_of (Remote.dirs (session (snd done))) ["r"]
     = Some ("ubuntu", "ubuntu").
Proof.
  split; [reflexivity |].
  destruct (provision_takes_over_existing_target Remote.example "/"
              eq_refl eq_refl eq_refl eq_refl) as (_ & _ & Hr & _).
  exact Hr.
Defined.

(** ** The command runners, in general *)

(** X4: the sentinel brings the output of a command back whole: whatever
    the output is, trailing spaces included, a capture made of the output,
    the sentinel and then only whitespace gives back the output. *)
Theorem run_string_cmd_sentinel_round_trip {S : Type} `{SSHSession S}
    (cmd out ws : string) (w : World S) (s' : S) :
  all_space ws = true ->
  answers (session w) (echo_cmd cmd) (out ++ "-" ++ ws) s' ->
  run_string_cmd cmd w = (Ok out, sent w (echo_cmd cmd) s').
Proof.
  intros Hws Hans.
  exact (run_string_cmd_sentinel cmd w out ws s' Hws Hans).
Qed.

Lemma run_string_cmd_sentinel_round_trip_witness :
  let w := Scripted.world
             [(echo_cmd "id -nu",
               mkProcess 0 ("ubuntu  " ++ "-" ++ (nl ++ nl)) EmptyString)] in
  fst (run_string_cmd "id -nu" w) = Ok "ubuntu  ".
Proof.
  intros w.
  rewrite (run_string_cmd_sentinel_round_trip "id -nu" "ubuntu  " (nl ++ nl)
             w (session w) eq_refl); [reflexivity | repeat split].
Defined.

(** X5: a capture that is empty or holds only whitespace gives the empty
    string, and [pop_back] is not called: once trimmed the capture is
    empty, where the call would have had undefined behaviour, and the
    runner ends with a value all the same. *)
Theorem run_string_cmd_blank {S : Type} `{SSHSession S}
    (cmd raw : string) (w : World S) (s' : S) :
  all_space raw = true ->
  answers (session w) (echo_cmd cmd) raw s' ->
  run_string_cmd cmd w = (Ok EmptyString, sent w (echo_cmd cmd) s')
  /\ Std.pop_back (utils.trim_end raw) = None.
Proof.
  intros Hraw Hans. rewrite (run_string_cmd_ok cmd w raw s' Hans).
  unfold untrimmed. now rewrite (trim_end_all_space raw Hraw).
Qed.

Lemma run_string_cmd_blank_witness :
  let w := Scripted.world
             [(echo_cmd "true", mkProcess 0 (" " ++ nl) EmptyString)] in
  run_string_cmd "true" w
  = (Ok EmptyString, sent w (echo_cmd "true") (session w))
  /\ Std.pop_back (utils.trim_end (" " ++ nl)) = None.
Proof.
  intros w.
  apply (run_string_cmd_blank "true" (" " ++ nl) w (session w) eq_refl).
  repeat split.
Defined.

(** X6: a wrapped command that exits non-zero makes [run_string_cmd] throw
    [std::runtime_error] with the stderr of the command; its output is
    dropped, untrimmed, and the command line was sent. *)
Theorem run_string_cmd_failed {S : Type} `{SSHSession S}
    (cmd : string) (w : World S) :
  exit_code (fst (exec (session w) (echo_cmd cmd))) <> 0%Z ->
  run_string_cmd cmd w
  = (Throw (runtime_error
              (read_std_error (fst (exec (session w) (echo_cmd cmd))))),
     sent w (echo_cmd cmd) (snd (exec (session w) (echo_cmd cmd)))).
Proof.
  intros Hexit. unfold run_string_cmd, bind.
  now rewrite (run_cmd_failed _ _ Hexit).
Qed.

Lemma run_string_cmd_failed_witness :
  let w := Scripted.world
             [(echo_cmd "pwd", mkProcess 255 "/home-" "connection lost")] in
  fst (run_string_cmd "pwd" w) = Throw (runtime_error "connection lost").
Proof.
  intros w.
  rewrite (run_string_cmd_failed "pwd" w); [reflexivity | discriminate].
Defined.

(** ** expand_home_directory, in general *)

Lemma append_nil_r (s : string) : s ++ EmptyString = s.
Proof. induction s as [|c s IH]; simpl; [reflexivity | now rewrite IH]. Qed.

Lemma find_from_found (c : ascii) (a b : string) (i : Std.size_type) :
  occurs c a = false ->
  Std.find_from c (a ++ String c b) i = (i + N.of_nat (String.length a))%N.
Proof.
  revert i. induction a as [|x a IH]; intros i Ha; simpl.
  - rewrite Ascii.eqb_refl. lia.
  - simpl in Ha. apply orb_false_elim in Ha as [Hx Ha].
    rewrite Hx, (IH _ Ha). lia.
Qed.

Lemma substring_prefix (a b : string) :
  String.substring 0 (String.length a) (a ++ b) = a.
Proof.
  induction a as [|x a IH]; simpl.
  - destruct b; reflexivity.
  - now rewrite IH.
Qed.

Lemma substring_app_skip (a b : string) (m : nat) :
  String.substring (String.length a) m (a ++ b) = String.substring 0 m b.
Proof. induction a as [|x a IH]; simpl; [reflexivity | exact IH]. Qed.

(** The pieces that [expand_home_directory] cuts out of
    [~user/rest]. *)
Lemma tilde_target_pieces (user rest : string) :
  let target := String "~"%char (user ++ String "/"%char rest) in
  occurs "/"%char user = false ->
  (Std.size target < Std.npos)%N ->
  (1 =? Std.size target)%N = false
  /\ Std.find target "/"%char 1%N = (1 + N.of_nat (String.length user))%N
  /\ Std.substr target 1%N
       (Std.size_sub (1 + N.of_nat (String.length user))%N 1%N) = Some user
  /\ Std.substr target (1 + N.of_nat (String.length user))%N
       (Std.size_sub (Std.size target) 1%N)
     = Some (String "/"%char rest).
Proof.
  intros target Huser Hsize.
  assert (Elen : Std.size target
                 = (1 + N.of_nat (String.length user) + 1
                    + N.of_nat (String.length rest))%N).
  { unfold Std.size, target. cbn [String.length].
    rewrite length_append. cbn [String.length]. lia. }
  assert (Hnpos : Std.npos = (Std.modulus - 1)%N) by reflexivity.
  assert (Hmod : Std.modulus = 18446744073709551616%N) by reflexivity.
  repeat split.
  - apply N.eqb_neq. lia.
  - unfold Std.find.
    replace (Std.size target <? 1)%N with false
      by (symmetry; apply N.ltb_ge; lia).
    change (Std.skip (N.to_nat 1) target) with (user ++ String "/"%char rest).
    now apply find_from_found.
  - unfold Std.substr.
    replace (Std.size target <? 1)%N with false
      by (symmetry; apply N.ltb_ge; lia).
    f_equal.
    replace (N.min (Std.size_sub (1 + N.of_nat (String.length user)) 1)
               (Std.size target - 1))%N
      with (N.of_nat (String.length user)).
    + rewrite Nat2N.id. change (N.to_nat 1) with 1%nat. unfold target.
      simpl. apply substring_prefix.
    + unfold Std.size_sub.
      rewrite (N.mod_small 1) by (rewrite Hmod; lia).
      replace (1 + N.of_nat (String.length user) + Std.modulus - 1)%N
        with (N.of_nat (String.length user) + 1 * Std.modulus)%N by lia.
      rewrite N.Div0.mod_add, N.mod_small by lia. lia.
  - unfold Std.substr.
    replace (Std.size target <? 1 + N.of_nat (String.length user))%N
      with false by (symmetry; apply N.ltb_ge; lia).
    f_equal.
    replace (N.min (Std.size_sub (Std.size target) 1)
               (Std.size target - (1 + N.of_nat (String.length user))))%N
      with (N.of_nat (Datatypes.S (String.length rest))).
    + rewrite Nat2N.id.
      replace (N.to_nat (1 + N.of_nat (String.length user)))
        with (Datatypes.S (String.length user)) by lia.
      unfold target.
      change (String.substring (Datatypes.S (String.length user))
                (Datatypes.S (String.length rest))
                (String "~"%char (user ++ String "/"%char rest)))
        with (String.substring (String.length user)
                (Datatypes.S (String.length rest))
                (user ++ String "/"%char rest)).
      rewrite substring_app_skip.
      apply (substring_all (String "/"%char rest)).
    + unfold Std.size_sub.
      rewrite (N.mod_small 1) by (rewrite Hmod; lia).
      replace (Std.size target + Std.modulus - 1)%N
        with (Std.size target - 1 + 1 * Std.modulus)%N by lia.
      rewrite N.Div0.mod_add, N.mod_small by lia. lia.
Qed.

(** X7: a target that does not start with [~], the empty target among
    them, comes back as it is, and the session is not asked anything. *)
Theorem expand_home_directory_unchanged {S : Type} `{SSHSession S}
    (target : string) (w : World S) :
  Std.char_at target 0 <> "~"%char ->
  expand_home_directory target w = (Ok target, w)
  /\ issued (snd (expand_home_directory target w)) = issued w.
Proof.
  intros Hfirst. unfold expand_home_directory.
  replace (Ascii.eqb "~" (Std.char_at target 0)) with false
    by (symmetry; apply Ascii.eqb_neq; congruence).
  split; reflexivity.
Qed.

Lemma expand_home_directory_unchanged_witness :
  expand_home_directory EmptyString (Scripted.world [])
    = (Ok EmptyString, Scripted.world [])
  /\ expand_home_directory "/srv/~data" (Scripted.world [])
    = (Ok "/srv/~data", Scripted.world []).
Proof.
  split.
  - apply (expand_home_directory_unchanged EmptyString (Scripted.world [])).
    discriminate.
  - apply (expand_home_directory_unchanged "/srv/~data" (Scripted.world [])).
    discriminate.
Defined.

Lemma expand_home_directory_user_lookup {S : Type} `{SSHSession S}
    (user rest home : string) (w : World S) (s' : S) :
  let target := String "~"%char (user ++ String "/"%char rest) in
  user <> EmptyString ->
  occurs "/"%char user = false ->
  (Std.size target < Std.npos)%N ->
  answers (session w) (echo_cmd (getent_cmd user)) (home ++ "-" ++ nl) s' ->
  expand_home_directory target w =
    (match home with
     | EmptyString =>
         Throw (runtime_error
                  ("user " ++ user
                     ++ " does not exist or does not have a home defined"))
     | _ => Ok (home ++ String "/"%char rest)
     end, sent w (echo_cmd (getent_cmd user)) s').
Proof.
  intros target Hne Huser Hsize Hans.
  destruct (tilde_target_pieces user rest Huser Hsize)
    as (Hone & Hfind & Hname & Hrest).
  fold target in Hone, Hfind, Hname, Hrest.
  unfold expand_home_directory.
  change (Ascii.eqb "~" (Std.char_at target 0)) with true.
  cbv beta iota zeta. rewrite Hone, Hfind.
  replace (1 =? 1 + N.of_nat (String.length user))%N with false
    by (symmetry; apply N.eqb_neq; destruct user; [congruence | cbn [String.length]; lia]).
  rewrite Hname, Hrest.
  cbv beta iota zeta delta [bind or_out_of_range ret throw].
  rewrite (run_string_cmd_sentinel _ _ home nl s' eq_refl Hans).
  destruct home; reflexivity.
Qed.

(** X8: for a target [~user/rest], with a user name that holds no slash,
    the password database is asked about exactly that name, and the result
    is the home directory followed by [/rest]; when the lookup prints
    nothing, the [runtime_error] thrown names the user. *)
Theorem expand_home_directory_of_user {S : Type} `{SSHSession S}
    (user rest home : string) (w : World S) (s' : S) :
  let target := String "~"%char (user ++ String "/"%char rest) in
  user <> EmptyString ->
  occurs "/"%char user = false ->
  (Std.size target < Std.npos)%N ->
  answers (session w) (echo_cmd (getent_cmd user)) (home ++ "-" ++ nl) s' ->
  expand_home_directory target w =
    (match home with
     | EmptyString =>
         Throw (runtime_error
                  ("user " ++ user
                     ++ " does not exist or does not have a home defined"))
     | _ => Ok (home ++ String "/"%char rest)
     end, sent w (echo_cmd (getent_cmd user)) s').
Proof.
  intros target. now apply expand_home_directory_user_lookup.
Qed.

Lemma expand_home_directory_of_user_witness :
  let w := Scripted.world
    [(echo_cmd (getent_cmd "bob"),
      mkProcess 0 ("/srv/bob" ++ "-" ++ nl) EmptyString)] in
  fst (expand_home_directory "~bob/a/b" w) = Ok "/srv/bob/a/b".
Proof.
  intros w.
  rewrite (expand_home_directory_of_user "bob" "a/b" "/srv/bob" w (session w));
    try reflexivity; [discriminate | repeat split].
Defined.

(** X9: for the target [~] and for [~/rest] the home directory is what
    [pwd] prints in a fresh shell, and the result is that directory
    followed by the rest; what [pwd] printed is not looked at, an empty
    answer gives the rest alone. *)
Theorem expand_home_directory_own {S : Type} `{SSHSession S}
    (suffix home : string) (w : World S) (s' : S) :
  let target := String "~"%char suffix in
  suffix = EmptyString \/ QDir.starts_with_slash suffix = true ->
  (Std.size target < Std.npos)%N ->
  answers (session w) (echo_cmd "pwd") (home ++ "-" ++ nl) s' ->
  expand_home_directory target w
  = (Ok (home ++ suffix), sent w (echo_cmd "pwd") s').
Proof.
  intros target Hsuffix Hsize Hans.
  unfold expand_home_directory.
  change (Ascii.eqb "~" (Std.char_at target 0)) with true.
  cbv beta iota zeta.
  destruct Hsuffix as [-> | Hslash].
  - unfold target.
    compute_term (1 =? Std.size "~")%N.
    compute_term (1 =? 1)%N.
    compute_term (Std.substr "~" 1%N (Std.size_sub (Std.size "~") 1%N)).
    cbv beta iota zeta delta [bind or_out_of_range ret].
    rewrite (run_string_cmd_sentinel _ _ home nl s' eq_refl Hans).
    now rewrite append_nil_r.
  - destruct suffix as [|c rest]; [discriminate |].
    simpl in Hslash. apply Ascii.eqb_eq in Hslash. subst c.
    destruct (tilde_target_pieces EmptyString rest eq_refl Hsize)
      as (Hone & Hfind & _ & Hrest).
    change (String "~"%char (EmptyString ++ String "/"%char rest))
      with target in Hone, Hfind, Hrest.
    rewrite Hone, Hfind.
    change (1 + N.of_nat (String.length EmptyString))%N with 1%N in *.
    compute_term (1 =? 1)%N. rewrite Hrest.
    cbv beta iota zeta delta [bind or_out_of_range ret].
    now rewrite (run_string_cmd_sentinel _ _ home nl s' eq_refl Hans).
Qed.

Lemma expand_home_directory_own_witness :
  let w := Scripted.world
    [(echo_cmd "pwd", mkProcess 0 ("/home/ubuntu" ++ "-" ++ nl) EmptyString)] in
  fst (expand_home_directory "~" w) = Ok "/home/ubuntu"
  /\ fst (expand_home_directory "~/x/y" w) = Ok "/home/ubuntu/x/y".
Proof.
  intros w. split.
  - rewrite (expand_home_directory_own EmptyString "/home/ubuntu" w
               (session w)); try reflexivity; [now left | repeat split].
  - rewrite (expand_home_directory_own "/x/y" "/home/ubuntu" w (session w));
      try reflexivity; [now right | repeat split].
Defined.

Lemma check_sshfs_exists_ok {S : Type} `{SSHSession S} (w : World S)
    (found : string) (s1 : S) :
  answers (session w) "which sshfs" found s1 ->
  check_sshfs_exists w = (Ok tt, sent w "which sshfs" s1).
Proof.
  intros (Hexit & _ & Hs1).
  unfold check_sshfs_exists, run_cmd_with, bind, session_exec, sent.
  destruct (exec (session w) "which sshfs") as [p s1'].
  simpl in Hexit, Hs1. subst s1'. now rewrite Hexit.
Qed.

(** X10: when the user of a target [~user/rest] is unknown to the host,
    the preparation stops at the lookup: the [runtime_error] naming the
    user is thrown, and nothing was asked about directories, let alone
    created; no handle is made. *)
Theorem SshfsMount_new_unknown_user {S : Type} `{SSHSession S}
    (current_path source_file source user rest : string)
    (gid_map uid_map : id_map) (w : World S) (s1 s2 : S) (found : string) :
  let target := String "~"%char (user ++ String "/"%char rest) in
  user <> EmptyString ->
  occurs "/"%char user = false ->
  (Std.size target < Std.npos)%N ->
  answers (session w) "which sshfs" found s1 ->
  answers s1 (echo_cmd (getent_cmd user)) ("-" ++ nl) s2 ->
  let done := SshfsMount_new current_path source_file source target
                gid_map uid_map w in
  fst done
  = Throw (runtime_error
             ("user " ++ user
                ++ " does not exist or does not have a home defined"))
  /\ issued (snd done)
     = (issued w ++ ["which sshfs"; echo_cmd (getent_cmd user)])%list.
Proof.
  intros target Hne Huser Hsize Hwhich Hgetent done.
  assert (E : done
            = (Throw (runtime_error
                        ("user " ++ user
                           ++ " does not exist or does not have a home defined")),
               mkWorld s2
                 (log w ++ [entry_call source_file source target])
                 ((issued w ++ ["which sshfs"])
                    ++ [echo_cmd (getent_cmd user)]))).
  { unfold done, SshfsMount_new, make_sftp_server. subst target.
    unfold bind at 1. unfold bind at 1. unfold mpl_log at 1. cbv beta iota.
    unfold bind at 1.
    match goal with
    | |- context [check_sshfs_exists ?w0] =>
        rewrite (check_sshfs_exists_ok w0 found s1 Hwhich)
    end.
    unfold bind at 1.
    match goal with
    | |- context [expand_home_directory _ ?w1] =>
        rewrite (expand_home_directory_user_lookup user rest EmptyString w1
                   s2 Hne Huser Hsize Hgetent)
    end.
    reflexivity. }
  rewrite E. split; [reflexivity |].
  simpl. now rewrite <- app_assoc.
Qed.

Lemma SshfsMount_new_unknown_user_witness :
  let w := Scripted.world
    [("which sshfs", mkProcess 0 ("/usr/bin/sshfs" ++ nl) EmptyString);
     (echo_cmd (getent_cmd "carol"), mkProcess 0 ("-" ++ nl) EmptyString)] in
  let done := SshfsMount_new "/" "sshfs_mount.cpp" "/src" "~carol/data" [] []
                w in
  fst done
  = Throw (runtime_error
             "user carol does not exist or does not have a home defined")
  /\ issued (snd done) = ["which sshfs"; echo_cmd (getent_cmd "carol")].
Proof.
  intros w.
  apply (SshfsMount_new_unknown_user "/" "sshfs_mount.cpp" "/src" "carol"
           "data" [] [] w (session w) (session w) ("/usr/bin/sshfs" ++ nl));
    try reflexivity; [discriminate | repeat split | repeat split].
Defined.


(** ** The deepest existing directory *)

Lemma occurs_app (c : ascii) (a b : string) :
  occurs c (a ++ b) = occurs c a || occurs c b.
Proof.
  induction a as [|x a IH]; simpl; [reflexivity |].
  now rewrite IH, orb_assoc.
Qed.

Lemma chop_last (P P' : string) :
  Bash.chop P = Some P' ->
  exists t, P = P' ++ String "/"%char t /\ occurs "/"%char t = false.
Proof.
  revert P'. induction P as [|c P IH]; intros P' HP; simpl in HP.
  - discriminate.
  - destruct (Bash.chop P) as [r|] eqn:E.
    + injection HP as <-. destruct (IH r eq_refl) as (t & -> & Ht).
      now exists t.
    + destruct (Ascii.eqb_spec c "/"%char) as [-> |]; [| discriminate].
      injection HP as <-. exists P. split; [reflexivity |].
      clear IH. induction P as [|x P IHP]; [reflexivity |].
      simpl in E. destruct (Bash.chop P); [discriminate |].
      destruct (Ascii.eqb x "/"%char) eqn:Ex; [discriminate |].
      simpl. rewrite Ex. now apply IHP.
Qed.

Lemma chop_none (P : string) :
  occurs "/"%char P = false -> Bash.chop P = None.
Proof.
  induction P as [|c P IH]; simpl; intros HP; [reflexivity |].
  apply orb_false_elim in HP as [Hc HP]. now rewrite (IH HP), Hc.
Qed.

(** Two ways of cutting a string at a slash, the second at its last one. *)
Lemma cut_before_last (a t b t1 : string) :
  a ++ String "/"%char t = b ++ String "/"%char t1 ->
  occurs "/"%char t1 = false ->
  a = b \/ exists t', b = a ++ String "/"%char t'.
Proof.
  revert b. induction a as [|x a IH]; intros b E Ht1.
  - destruct b as [|y b]; [now left | right].
    simpl in E. injection E as <- _. now exists b.
  - destruct b as [|y b]; simpl in E.
    + injection E as _ E. rewrite <- E, occurs_app in Ht1. simpl in Ht1.
      rewrite orb_true_r in Ht1. discriminate.
    + injection E as <- E. destruct (IH b E Ht1) as [-> | (t' & ->)];
        [now left | right; now exists t'].
Qed.

Lemma not_longer_prefix (Q P' t' : string) :
  Q = P' ++ String "/"%char t' ->
  (P' = Q \/ exists t, P' = Q ++ String "/"%char t) -> False.
Proof.
  intros EQ [E | (t & E)]; apply (f_equal String.length) in E;
    rewrite EQ in E; rewrite ?length_append in E; simpl in E;
    rewrite ?length_append in E; simpl in E; lia.
Qed.

Lemma existing_dir_loop_deepest (test_d : string -> bool) (fuel : nat)
    (C P' : string) :
  Bash.existing_dir_loop test_d fuel C = Some P' ->
  forall Q t',
    (C = Q \/ exists t, C = Q ++ String "/"%char t) ->
    Q = P' ++ String "/"%char t' ->
    test_d (Q ++ "/") = false.
Proof.
  revert C. induction fuel as [|fuel IH]; intros C Hloop Q t' HQ EQ;
    [discriminate |].
  simpl in Hloop. destruct (test_d (C ++ "/")) eqn:Etest.
  - injection Hloop as <-. destruct (not_longer_prefix Q C t' EQ HQ).
  - unfold Bash.strip_last in Hloop.
    destruct (Bash.chop C) as [C1|] eqn:Echop.
    + destruct (chop_last C C1 Echop) as (t1 & EC & Ht1).
      destruct HQ as [<- | (t & EQC)]; [exact Etest |].
      apply (IH C1 Hloop Q t'); [| exact EQ].
      rewrite EC in EQC. symmetry in EQC.
      destruct (cut_before_last Q t C1 t1 EQC Ht1) as [-> | (t2 & ->)];
        [now left | right; now exists t2].
    + now apply (IH C Hloop Q t').
Qed.

(** X11: on a host whose root exists, the script of [get_path_split] ends
    for every absolute path, with a directory that is the path or lies
    above it and that exists; and it is the deepest one: no part of the
    path that reaches further down is a directory. *)
Theorem existing_dir_deepest (test_d : string -> bool) (P : string) :
  test_d "/" = true ->
  QDir.starts_with_slash P = true ->
  exists P',
    Bash.existing_dir test_d P = Some P'
    /\ (P = P' \/ exists t, P = P' ++ String "/"%char t)
    /\ test_d (P' ++ "/") = true
    /\ forall Q t',
         (P = Q \/ exists t, P = Q ++ String "/"%char t) ->
         Q = P' ++ String "/"%char t' ->
         test_d (Q ++ "/") = false.
Proof.
  intros Hroot HP.
  destruct (BashFacts.existing_dir_ends test_d P Hroot HP)
    as (P' & Hdir & Habove & Htest).
  exists P'. repeat split; try assumption.
  intros Q t'.
  exact (existing_dir_loop_deepest test_d _ P P' Hdir Q t').
Qed.

Lemma existing_dir_deepest_witness :
  exists P',
    Bash.existing_dir (Remote.test_d Remote.example) "/home/ubuntu/x/y"
      = Some P'
    /\ P' = "/home/ubuntu"
    /\ Remote.test_d Remote.example ("/home/ubuntu/x" ++ "/") = false.
Proof.
  destruct (existing_dir_deepest (Remote.test_d Remote.example)
              "/home/ubuntu/x/y" eq_refl eq_refl)
    as (P' & Hdir & _ & _ & Hdeep).
  exists P'. split; [exact Hdir |].
  assert (EP : P' = "/home/ubuntu")
    by (vm_compute in Hdir; now injection Hdir as <-).
  split; [exact EP |].
  apply (Hdeep "/home/ubuntu/x" "x").
  - right. now exists "y".
  - now rewrite EP.
Defined.

(** X12: a value without a slash that is no directory is never left: the
    loop of the script does not end on it, however long it runs. *)
Theorem existing_dir_loop_stuck (test_d : string -> bool) (fuel : nat)
    (P : string) :
  occurs "/"%char P = false ->
  test_d (P ++ "/") = false ->
  Bash.existing_dir_loop test_d fuel P = None.
Proof.
  intros Hslash Htest. induction fuel as [|fuel IH]; [reflexivity |].
  simpl. rewrite Htest. unfold Bash.strip_last.
  now rewrite (chop_none P Hslash).
Qed.

Lemma existing_dir_loop_stuck_witness :
  Bash.existing_dir_loop (Remote.test_d Remote.example) 1000 "data" = None.
Proof.
  apply (existing_dir_loop_stuck (Remote.test_d Remote.example) 1000 "data");
    reflexivity.
Defined.

(** ** get_path_split on plain paths *)

Module PlainFacts.

Import QDir Clean QDirFacts.

Lemma plain_normal (s : list string) : Forall plain s -> normal s.
Proof.
  induction 1 as [|x s (_ & Hdot & Hdd) _ IH]; simpl; [exact I |].
  repeat split; [exact Hdot | congruence | exact IH].
Qed.

Lemma plain_segments (l : list string) : Forall plain l -> Forall segment l.
Proof. apply Forall_impl. now intros x (Hx & _). Qed.

(** A path made of plain segments is clean already. *)
Lemma clean_elts_plain (L : list string) :
  Forall plain L -> clean_elts ("/" ++ join L) = L.
Proof.
  intros HL. unfold clean_elts.
  rewrite split_skip_empty_rooted by now apply plain_segments.
  pose proof (fold_push_rest L []) as E. simpl in E.
  rewrite E by (apply plain_normal; now apply Forall_rev).
  apply rev_involutive.
Qed.

Lemma join_not_empty (L : list string) :
  Forall segment L -> L <> [] -> join L <> EmptyString.
Proof.
  intros HL Hne E. now apply (join_empty L HL) in E.
Qed.

Lemma ends_with_slash_no_slash (x : string) :
  occurs slash x = false -> ends_with_slash x = false.
Proof.
  induction x as [|c x IH]; [reflexivity |].
  simpl. intros H. apply orb_false_elim in H as [Hc Hx].
  destruct x; [exact Hc | now apply IH].
Qed.

Lemma ends_with_slash_app (a b : string) :
  b <> EmptyString -> ends_with_slash (a ++ b) = ends_with_slash b.
Proof.
  intros Hb. induction a as [|c a IH]; [reflexivity |].
  simpl. destruct (a ++ b) eqn:E; [| exact IH].
  destruct a; [simpl in E; congruence | discriminate].
Qed.

Lemma ends_with_slash_join (L : list string) :
  Forall segment L -> L <> [] -> ends_with_slash (join L) = false.
Proof.
  induction 1 as [|x L Hx HL IH]; intros Hne; [congruence |].
  destruct L as [|y r].
  - apply ends_with_slash_no_slash, Hx.
  - change (join (x :: y :: r)) with (x ++ (String slash (join (y :: r)))).
    rewrite ends_with_slash_app by discriminate.
    pose proof (join_not_empty (y :: r) HL ltac:(discriminate)) as Hj.
    change (String slash (join (y :: r)))
      with (String slash EmptyString ++ join (y :: r)).
    rewrite ends_with_slash_app by exact Hj.
    apply IH. discriminate.
Qed.

Lemma join_app (C G : list string) :
  C <> [] -> G <> [] -> join (C ++ G) = join C ++ "/" ++ join G.
Proof.
  intros HC HG. induction C as [|x C IH]; [congruence |].
  destruct C as [|y C].
  - destruct G; [congruence | reflexivity].
  - change (join ((x :: y :: C) ++ G))
      with (x ++ "/" ++ join ((y :: C) ++ G)).
    rewrite IH by discriminate.
    change (join (x :: y :: C)) with (x ++ "/" ++ join (y :: C)).
    now rewrite !append_assoc.
Qed.

(** [QDir] keeps a path of plain segments as it is. *)
Lemma new_plain (L : list string) :
  Forall segment L -> L <> [] -> new ("/" ++ join L) = mk ("/" ++ join L).
Proof.
  intros HL Hne.
  assert (E : ends_with_slash (String slash (join L)) = false).
  { change (String slash (join L)) with (String slash EmptyString ++ join L).
    rewrite ends_with_slash_app by now apply join_not_empty.
    now apply ends_with_slash_join. }
  change (new ("/" ++ join L))
    with (mk (if ends_with_slash (String slash (join L))
                 && (1 <? String.length (String slash (join L)))%nat
              then Std.without_last (String slash (join L))
              else String slash (join L))).
  now rewrite E.
Qed.

(** Below the directory of the segments [C], the path of [C ++ G] is
    [G]. *)
Lemma relativeFilePath_plain (current_path : string) (C G : list string) :
  Forall plain C -> Forall plain G -> G <> [] ->
  relativeFilePath current_path (new (rooted C ++ "/"))
    ("/" ++ join (C ++ G))
  = join G.
Proof.
  intros HC HG Hne.
  assert (Ed : exists d, new (rooted C ++ "/") = mk d
                         /\ starts_with_slash d = true
                         /\ clean_elts d = C).
  { exists (dirEntry (new (rooted C ++ "/"))). split; [reflexivity |].
    rewrite new_slash_dir. destruct C as [|x C]; [split; reflexivity |].
    change (rooted (x :: C)) with ("/" ++ join (x :: C)).
    split; [reflexivity | now apply clean_elts_plain]. }
  destruct Ed as (d & -> & Hd & ED).
  rewrite (relativeFilePath_elts current_path d ("/" ++ join (C ++ G)) Hd
             (eq_refl true)).
  cbv zeta.
  rewrite ED, clean_elts_plain by (apply Forall_app; now split).
  assert (Ecp : common_prefix C (C ++ G) = List.length C).
  { pose proof (common_prefix_app C [] G) as E.
    rewrite app_nil_r in E. rewrite E. simpl. lia. }
  rewrite Ecp, Nat.sub_diag, skipn_app, skipn_all, Nat.sub_diag.
  simpl. unfold or_dot.
  pose proof (join_not_empty G (plain_segments G HG) Hne) as Hj.
  destruct (join G); [congruence | reflexivity].
Qed.

End PlainFacts.

(** X13: for a target made of plain segments, of which the host reports
    the first ones as the deepest existing directory, the split is exact:
    the existing part is that directory with a slash, the missing part is
    the remaining segments joined by slashes, and the two put together
    are, letter by letter, the target. *)
Theorem get_path_split_plain {S : Type} `{SSHSession S}
    (current_path : string) (C G : list string) (w : World S) (s' : S) :
  let target := "/" ++ QDir.join (C ++ G) in
  Forall plain C -> Forall plain G -> G <> [] ->
  answers (session w) (echo_cmd (existing_dir_cmd target))
    ((rooted C ++ "/") ++ "-" ++ nl) s' ->
  get_path_split current_path target w
  = (Ok (rooted C ++ "/", QDir.join G),
     sent w (echo_cmd (existing_dir_cmd target)) s')
  /\ (rooted C ++ "/") ++ QDir.join G = target.
Proof.
  intros target HC HG Hne Hans.
  assert (HCG : Forall Clean.segment (C ++ G))
    by (apply Forall_app; split; now apply PlainFacts.plain_segments).
  assert (HneCG : (C ++ G)%list <> [])
    by (destruct C; [exact Hne | discriminate]).
  unfold target in *. clear target.
  split.
  - unfold get_path_split. cbv zeta.
    rewrite (PlainFacts.new_plain _ HCG HneCG).
    change (QDir.isRelative (QDir.mk ("/" ++ QDir.join (C ++ G))))
      with false.
    cbv iota.
    change (QDir.path (QDir.mk ("/" ++ QDir.join (C ++ G))))
      with ("/" ++ QDir.join (C ++ G)).
    unfold bind at 1. unfold ret at 1. unfold bind.
    rewrite (run_string_cmd_sentinel _ w (rooted C ++ "/") nl s' eq_refl Hans).
    unfold ret.
    now rewrite (PlainFacts.relativeFilePath_plain current_path C G HC HG Hne).
  - destruct C as [|x C]; [reflexivity |].
    change (rooted (x :: C)) with ("/" ++ QDir.join (x :: C)).
    rewrite PlainFacts.join_app by (discriminate || exact Hne).
    now rewrite !append_assoc.
Qed.

Lemma get_path_split_plain_witness :
  get_path_split "/" "/home/ubuntu/x/y" (Remote.world Remote.example)
  = (Ok ("/home/ubuntu/", "x/y"),
     sent (Remote.world Remote.example)
       (echo_cmd (existing_dir_cmd "/home/ubuntu/x/y")) Remote.example).
Proof.
  refine (proj1 (get_path_split_plain "/" ["home"; "ubuntu"] ["x"; "y"]
                   (Remote.world Remote.example) Remote.example _ _ _ _)).
  - repeat constructor; discriminate.
  - repeat constructor; discriminate.
  - discriminate.
  - repeat split.
Defined.

(** X14: a relative target is resolved against the working directory of
    the remote host: [pwd] is asked first, and the search for the deepest
    existing directory runs on that directory, a slash and the target; for
    an absolute target the search is the only command sent. *)
Theorem get_path_split_commands {S : Type} `{SSHSession S}
    (test_d : string -> bool) (cwd current_path target : string)
    (w : World S) (s' : S) :
  test_d "/" = true ->
  QDir.starts_with_slash cwd = true ->
  host_answers_split test_d cwd (session w) target s' ->
  exists split,
    get_path_split current_path target w
    = (Ok split,
       mkWorld s' (log w)
         (issued w
            ++ (if QDir.isRelative (QDir.new target)
                then [echo_cmd "pwd";
                      echo_cmd (existing_dir_cmd
                                  (cwd ++ "/" ++ QDir.path (QDir.new target)))]
                else [echo_cmd (existing_dir_cmd
                                  (QDir.path (QDir.new target)))]))).
Proof.
  intros Hroot Hcwd (s1 & Hpwd & Hprobe).
  pose proof (absolute_target_rooted cwd target Hcwd) as Habs.
  destruct (BashFacts.existing_dir_ends test_d _ Hroot Habs)
    as (P & HP & _).
  specialize (Hprobe P HP).
  unfold get_path_split, absolute_target in *. cbv zeta in *.
  destruct (QDir.isRelative (QDir.new target)) eqn:Erel.
  - unfold bind at 1 2.
    rewrite (run_string_cmd_sentinel _ w cwd nl s1 eq_refl Hpwd).
    unfold ret at 1. unfold bind.
    rewrite (run_string_cmd_sentinel _ (sent w (echo_cmd "pwd") s1)
               (Bash.unquoted (P ++ "/")) nl s' eq_refl Hprobe).
    eexists. unfold ret, sent. simpl. now rewrite <- app_assoc.
  - subst s1. unfold bind at 1. unfold ret at 1. unfold bind.
    rewrite (run_string_cmd_sentinel _ w (Bash.unquoted (P ++ "/")) nl s'
               eq_refl Hprobe).
    eexists. reflexivity.
Qed.

Lemma get_path_split_commands_witness :
  exists split,
    get_path_split "/" "x/y" (Remote.world Remote.example)
    = (Ok split,
       mkWorld Remote.example []
         [echo_cmd "pwd"; echo_cmd (existing_dir_cmd "/home/ubuntu/x/y")]).
Proof.
  apply (get_path_split_commands (Remote.test_d Remote.example)
           "/home/ubuntu" "/" "x/y" (Remote.world Remote.example)
           Remote.example).
  - reflexivity.
  - reflexivity.
  - exists Remote.example. split; [repeat split |].
    intros P HP. vm_compute in HP. injection HP as <-. repeat split.
Defined.

(** ** set_owner_for *)

Lemma occurs_split (c : ascii) (s : string) :
  occurs c s = true ->
  exists a b, s = a ++ String c b /\ occurs c a = false.
Proof.
  induction s as [|x s IH]; [discriminate |].
  simpl. destruct (Ascii.eqb_spec x c) as [-> | Hx].
  - intros _. exists EmptyString, s. now split.
  - simpl. intros Hs. destruct (IH Hs) as (a & b & -> & Ha).
    exists (String x a), b. split; [reflexivity |].
    simpl. apply Ascii.eqb_neq in Hx. now rewrite Hx.
Qed.

(** X15: the directory that [set_owner_for] hands to [chown] is the part
    of the relative path before its first slash: it holds no slash, the
    path goes on after it with a slash or ends there, and for a path that
    starts with a slash it is empty. *)
Theorem first_dir_of_first_segment (relative_target : string) :
  (Std.size relative_target < Std.npos)%N ->
  occurs "/"%char (first_dir_of relative_target) = false
  /\ (relative_target = first_dir_of relative_target
      \/ exists rest,
           relative_target
           = first_dir_of relative_target ++ String "/"%char rest)
  /\ (QDir.starts_with_slash relative_target = true ->
      first_dir_of relative_target = EmptyString).
Proof.
  intros Hsize. unfold first_dir_of, Std.find_first_of, Std.find.
  replace (Std.size relative_target <? 0)%N with false
    by (symmetry; apply N.ltb_ge; lia).
  change (Std.skip (N.to_nat 0) relative_target) with relative_target.
  cbv zeta iota.
  destruct (occurs "/"%char relative_target) eqn:Eocc.
  - destruct (occurs_split _ _ Eocc) as (a & b & E & Ha).
    rewrite E in Hsize |- *.
    rewrite (find_from_found "/" a b 0%N Ha).
    assert (Hlen : (0 + N.of_nat (String.length a) < Std.npos)%N).
    { unfold Std.size in Hsize. rewrite length_append in Hsize.
      simpl in Hsize. lia. }
    replace (Std.npos =? 0 + N.of_nat (String.length a))%N with false
      by (symmetry; apply N.eqb_neq; lia).
    unfold Std.substr.
    replace (Std.size (a ++ String "/"%char b) <? 0)%N with false
      by (symmetry; apply N.ltb_ge; lia).
    cbv iota.
    replace (N.to_nat (N.min (0 + N.of_nat (String.length a))
                         (Std.size (a ++ String "/"%char b) - 0)))
      with (String.length a)
      by (unfold Std.size; rewrite length_append; lia).
    change (N.to_nat 0) with 0%nat. rewrite substring_prefix.
    repeat split.
    + exact Ha.
    + right. now exists b.
    + intros Hslash. destruct a as [|x a]; [reflexivity |].
      simpl in Hslash, Ha. unfold QDir.slash in Hslash.
      rewrite Hslash in Ha. discriminate.
  - rewrite (find_from_absent _ _ 0%N Eocc).
    change (Std.npos =? Std.npos)%N with true. cbv iota.
    repeat split.
    + exact Eocc.
    + now left.
    + intros Hslash. destruct relative_target as [|x r]; [reflexivity |].
      simpl in Hslash, Eocc. unfold QDir.slash in Hslash.
      rewrite Hslash in Eocc. discriminate.
Qed.

Lemma first_dir_of_first_segment_witness :
  first_dir_of "a/b/c" = "a" /\ first_dir_of "/a/b" = EmptyString
  /\ occurs "/"%char (first_dir_of "a/b/c") = false.
Proof.
  destruct (first_dir_of_first_segment "a/b/c" eq_refl) as (Hno & _ & _).
  destruct (first_dir_of_first_segment "/a/b" eq_refl) as (_ & _ & Hroot).
  split; [reflexivity | split; [now apply Hroot | exact Hno]].
Defined.

(** X16: [set_owner_for] asks for the user name, then for the group name,
    and sends one [chown -R] with the names as the host printed them, run
    in the root directory on the first segment of the relative path; a
    failing [chown] is thrown as [std::runtime_error] with its stderr. *)
Theorem set_owner_for_sends {S : Type} `{SSHSession S}
    (root relative_target u g : string) (w : World S) (s1 s2 : S) :
  answers (session w) (echo_cmd "id -nu") (u ++ "-" ++ nl) s1 ->
  answers s1 (echo_cmd "id -ng") (g ++ "-" ++ nl) s2 ->
  let cmd := chown_cmd root u g (first_dir_of relative_target) in
  let proc := fst (exec s2 cmd) in
  set_owner_for root relative_target w
  = (if (exit_code proc =? 0)%Z then Ok tt
     else Throw (runtime_error (read_std_error proc)),
     mkWorld (snd (exec s2 cmd)) (log w)
       (issued w ++ [echo_cmd "id -nu"; echo_cmd "id -ng"; cmd])).
Proof.
  intros Hu Hg cmd proc. unfold set_owner_for, bind.
  rewrite (run_string_cmd_sentinel _ w u nl s1 eq_refl Hu).
  rewrite (run_string_cmd_sentinel _ (sent w (echo_cmd "id -nu") s1) g nl s2
             eq_refl Hg).
  cbv zeta. fold cmd.
  unfold run_cmd, run_cmd_with, bind, session_exec, sent. simpl.
  unfold proc. destruct (exec s2 cmd) as [p s3]. simpl.
  destruct (exit_code p =? 0)%Z; simpl; now rewrite <- !app_assoc.
Qed.

Lemma set_owner_for_sends_witness :
  let w := Scripted.world
    [(echo_cmd "id -nu", mkProcess 0 ("ubuntu" ++ "-" ++ nl) EmptyString);
     (echo_cmd "id -ng", mkProcess 0 ("staff" ++ "-" ++ nl) EmptyString);
     (chown_cmd "/srv/" "ubuntu" "staff" "data",
      mkProcess 1 EmptyString "chown: cannot access 'data'")] in
  fst (set_owner_for "/srv/" "data/in/box" w)
  = Throw (runtime_error "chown: cannot access 'data'").
Proof.
  intros w.
  rewrite (set_owner_for_sends "/srv/" "data/in/box" "ubuntu" "staff" w
             (session w) (session w)); [reflexivity | | ]; repeat split.
Defined.

(** ** What the worker prints *)

(** X17: the worker thread prints [Connected] before it serves and
    [Stopped] after the server has returned, each once: whenever [stop()]
    returns on a handle as its constructor left it, the two lines are what
    was printed, in this order, and the handle holds the server it was
    built with; before that, what was printed tells how far the worker
    has got. *)
Theorem stop_prints_connected_stopped {S : Type} `{SSHSession S}
    (server : SftpServer (S := S)) (before eofs : list bool) :
  let m := worker_steps before (started server) in
  cout m = match worker (sftp_thread m) with
           | Starting => []
           | Serving => ["Connected"]
           | Finished => ["Connected"; "Stopped"]
           end
  /\ forall m1,
       stop eofs m = Returned m1 ->
       cout m1 = ["Connected"; "Stopped"]
       /\ sftp_server m1 = server
       /\ worker_running m1 = false.
Proof.
  intros m.
  assert (Hc : cout m = match worker (sftp_thread m) with
                        | Starting => []
                        | Serving => ["Connected"]
                        | Finished => ["Connected"; "Stopped"]
                        end)
    by (apply worker_steps_cout; reflexivity).
  assert (Hsrv : forall l (x : SshfsMount S),
             sftp_server (worker_steps l x) = sftp_server x).
  { induction l as [|e l IH]; intros x; simpl; [reflexivity |].
    rewrite IH. unfold worker_step.
    destruct (worker (sftp_thread x)); simpl; try reflexivity.
    now destruct (SftpServer_run_returns x e). }
  assert (Hm : before_stop m)
    by (apply worker_steps_before_stop; repeat split).
  destruct Hm as (_ & Hj & _).
  split; [exact Hc |].
  intros m1. unfold stop, thread_join. cbv zeta.
  change (joinable (sftp_thread (SftpServer_stop m)))
    with (joinable (sftp_thread m)).
  rewrite Hj. intros Hjoin.
  destruct (thread_wait_cout eofs (SftpServer_stop m) m1 Hc Hjoin)
    as (Hout & Hs1).
  split; [exact Hout |]. split.
  - rewrite Hs1. simpl. unfold m. now rewrite Hsrv.
  - unfold worker_running. now rewrite (thread_wait_finished _ _ _ Hjoin).
Qed.

Lemma stop_prints_connected_stopped_witness :
  exists m1 : SshfsMount Scripted.script,
    stop [false; false]
      (worker_steps [] (started (mkSftpServer [] "/src" "/tgt" [] [] 1000 1000)))
    = Returned m1
    /\ cout m1 = ["Connected"; "Stopped"].
Proof.
  eexists. split; [reflexivity |].
  apply (proj2 (stop_prints_connected_stopped
                  (mkSftpServer [] "/src" "/tgt" [] [] 1000 1000)
                  [] [false; false]) _ eq_refl).
Defined.
